(** * keyward: the Table Service over a remote table Gateway

    A shallow embedding of [keyward/table_operations.py] and of the facade
    [keyward/api.py].  Every operation of
    [TableOperations] is an [async] function that awaits one Gateway request
    at a time; the embedding threads the Gateway's state explicitly and logs
    every request together with the Gateway's answer, so that statements such
    as "no delete call is issued" are statements about the log.

    The Gateway ([grist.browser.api]) is an external collaborator: it is kept
    abstract as a record of operations over an arbitrary state, each of which
    may raise.  The tabular frame library is abstract in the same way.
    Console output ([print]) is not part of the model. *)

From Stdlib Require Import SpecFloat QArith.
From stdpp Require Import gmap strings list fin_maps.

Open Scope string_scope.
Open Scope list_scope.

(** ** Python values *)

(** Cell values and record fields: [None], [bool], [int], [float] and
    [str].  A float is given by its sign, mantissa and exponent, or is a
    zero, an infinity or NaN; [S754_finite s m e] is the number
    [(-1)^s * m * 2^e]. *)
Inductive value : Type :=
  | VNone
  | VBool (b : bool)
  | VInt (n : Z)
  | VFloat (f : spec_float)
  | VStr (s : string).

#[global] Instance spec_float_eq_dec : EqDecision spec_float.
Proof. solve_decision. Defined.

#[global] Instance value_eq_dec : EqDecision value.
Proof. solve_decision. Defined.

(** The number a numeric value stands for: an exact rational, or an
    infinity. *)
Inductive number : Type :=
  | Finite (q : Q)
  | Infinite (negative : bool).

(** [(-1)^s * m * 2^e] as a rational. *)
Definition dyadic (s : bool) (m : positive) (e : Z) : Q :=
  let z := if s then Z.neg m else Z.pos m in
  if (0 <=? e)%Z
  then inject_Z (z * 2 ^ e)
  else Qmake z (2 ^ Z.to_pos (- e)).

(** Booleans count as the integers 0 and 1; [None], strings and NaN stand
    for no number. *)
Definition number_of (v : value) : option number :=
  match v with
  | VBool b => Some (Finite (inject_Z (Z.b2z b)))
  | VInt n => Some (Finite (inject_Z n))
  | VFloat (S754_zero _) => Some (Finite 0)
  | VFloat (S754_infinity s) => Some (Infinite s)
  | VFloat (S754_finite s m e) => Some (Finite (dyadic s m e))
  | VFloat S754_nan | VNone | VStr _ => None
  end.

Definition number_eqb (x y : number) : bool :=
  match x, y with
  | Finite p, Finite q => Qeq_bool p q
  | Infinite s, Infinite t => Bool.eqb s t
  | _, _ => false
  end.

(** Python's [==] on these values.  Numbers of the three numeric types are
    compared by their exact value, [bool] being a subclass of [int]: so
    [True == 1 == 1.0], while NaN equals nothing, itself included.  A
    string never equals a number and [None] equals only [None]. *)
Definition py_eq (a b : value) : bool :=
  match a, b with
  | VNone, VNone => true
  | VStr s, VStr t => String.eqb s t
  | _, _ =>
      match number_of a, number_of b with
      | Some x, Some y => number_eqb x y
      | _, _ => false
      end
  end.

(** Python's [!=]. *)
Definition py_ne (a b : value) : bool := negb (py_eq a b).

(** Truth value of an object in a condition. *)
Definition truthy (v : value) : bool :=
  match v with
  | VNone => false
  | VBool b => b
  | VInt n => negb (n =? 0)%Z
  | VFloat (S754_zero _) => false
  | VFloat _ => true
  | VStr s => negb (String.eqb s "")
  end.

(** [type(v).__name__] *)
Definition type_name (v : value) : string :=
  match v with
  | VNone => "NoneType"
  | VBool _ => "bool"
  | VInt _ => "int"
  | VFloat _ => "float"
  | VStr _ => "str"
  end.

(** A record maps column names to values; a snapshot is column-oriented and
    maps each column name (the system columns included) to its cells. *)
Abbreviation record := (gmap string value).
Abbreviation snapshot := (gmap string (list value)).

(** A field of the record returned by [fetch_selected_record]: a plain value
    or a structure with named members (an attachment exposes [url]). *)
Inductive field : Type :=
  | FScalar (v : value)
  | FStruct (members : gmap string value).

Abbreviation selected_record := (gmap string field).

Definition field_truthy (f : field) : bool :=
  match f with
  | FScalar v => truthy v
  | FStruct members => negb (bool_decide (members = ∅))
  end.

(** The two columns the Gateway manages itself: [('id', 'manualSort')]. *)
Definition system_columns : gset string := {[ "id"; "manualSort" ]}.

(** ** Outcomes, Gateway requests and their log *)

(** A call either returns or raises.  [Raise] stands for an exception of
    class [Exception], the class every handler of the Service is written
    for; the exception itself is only printed by the handlers, so it carries
    no data here.  What is not an [Exception] (the cancellation of the
    awaiting task, an interrupt) passes through every handler and is not
    part of the model. *)
Inductive outcome (A : Type) : Type :=
  | Ok (a : A)
  | Raise.
Arguments Ok {A} a.
Arguments Raise {A}.

Definition is_ok {A} (r : outcome A) : bool :=
  match r with Ok _ => true | Raise => false end.

(** One entry of the log per Gateway request, with the Gateway's answer. *)
Inductive event : Type :=
  | EFetchTable (table : string) (r : outcome snapshot)
  | ECreate (table : string) (records : list record) (r : outcome (list value))
  | EUpdate (table : string) (records : list record) (r : outcome unit)
  | EDestroy (table : string) (row_ids : list value) (r : outcome unit)
  | EFetchSelected (row_id : value) (r : outcome (option selected_record)).

(** The Gateway interface consumed by the Service. *)
Record Gateway (σ : Type) : Type := {
  gw_fetch_table : string → σ → outcome snapshot * σ;
  gw_create : string → list record → σ → outcome (list value) * σ;
  gw_update : string → list record → σ → outcome unit * σ;
  gw_destroy : string → list value → σ → outcome unit * σ;
  gw_fetch_selected_record : value → σ → outcome (option selected_record) * σ
}.
Arguments gw_fetch_table {σ} _ _ _.
Arguments gw_create {σ} _ _ _ _.
Arguments gw_update {σ} _ _ _ _.
Arguments gw_destroy {σ} _ _ _ _.
Arguments gw_fetch_selected_record {σ} _ _ _.

(** ** The monad of Service code

    A computation takes the Gateway state and yields an outcome, the new
    state and the requests it has issued, oldest first. *)
Definition M (σ A : Type) : Type := σ → outcome A * σ * list event.

#[global] Instance M_ret σ : MRet (M σ) := λ A a st, (Ok a, st, []).

#[global] Instance M_bind σ : MBind (M σ) := λ A B f m st,
  match m st with
  | (Ok a, st1, tr1) => let '(r, st2, tr2) := f a st1 in (r, st2, tr1 ++ tr2)
  | (Raise, st1, tr1) => (Raise, st1, tr1)
  end.

(** [raise] *)
Definition throw {σ A} : M σ A := λ st, (Raise, st, []).

(** [try: body  except Exception: handler], for failures of class
    [Exception]. *)
Definition try_except {σ A} (body handler : M σ A) : M σ A := λ st,
  match body st with
  | (Raise, st1, tr1) => let '(r, st2, tr2) := handler st1 in (r, st2, tr1 ++ tr2)
  | returned => returned
  end.

(** A subscript or attribute access that may fail. *)
Definition lift_option {σ A} (o : option A) : M σ A :=
  match o with Some a => mret a | None => throw end.

(** [for x in xs: body] *)
Fixpoint for_each {σ A} (xs : list A) (body : A → M σ unit) : M σ unit :=
  match xs with
  | [] => mret ()
  | x :: rest => _ ← body x; for_each rest body
  end.

Section requests.
Context {σ : Type} (gw : Gateway σ).

Definition fetch_table (table : string) : M σ snapshot := λ st,
  let '(r, st1) := gw_fetch_table gw table st in (r, st1, [EFetchTable table r]).

Definition create (table : string) (records : list record) : M σ (list value) := λ st,
  let '(r, st1) := gw_create gw table records st in (r, st1, [ECreate table records r]).

Definition update (table : string) (records : list record) : M σ unit := λ st,
  let '(r, st1) := gw_update gw table records st in (r, st1, [EUpdate table records r]).

Definition destroy (table : string) (row_ids : list value) : M σ unit := λ st,
  let '(r, st1) := gw_destroy gw table row_ids st in (r, st1, [EDestroy table row_ids r]).

Definition fetch_selected_record (row_id : value) : M σ (option selected_record) := λ st,
  let '(r, st1) := gw_fetch_selected_record gw row_id st in (r, st1, [EFetchSelected row_id r]).
End requests.

(** ** Table creation and record CRUD *)

(** [{col_name: "" if col_type == "Text" else 0 for col_name, col_type in columns.items()}] *)
Definition dummy_record (columns : gmap string string) : record :=
  (λ col_type : string, if String.eqb col_type "Text" then VStr "" else VInt 0) <$> columns.

(** The argument of [add_data]: a single dict or a list of dicts. *)
Inductive records_arg : Type :=
  | OneRecord (r : record)
  | RecordList (rs : list record).

(** The argument of [delete_data]: a single row id or a list of row ids. *)
Inductive row_ids_arg : Type :=
  | OneRowId (row_id : value)
  | RowIdList (row_ids : list value).

Section crud.
Context {σ : Type} (gw : Gateway σ).

Definition create_table (table_name : string) (columns : gmap string string) : M σ bool :=
  try_except
    (result ← create gw table_name [dummy_record columns];
     _ ← match result with
         | row_id :: _ => destroy gw table_name [row_id]
         | [] => mret ()
         end;
     mret true)
    (mret false).

Definition add_data (table_name : string) (records : records_arg) : M σ (option (list value)) :=
  let records := match records with
                 | RecordList rs => rs
                 | OneRecord r => [r]
                 end in
  try_except
    (result ← create gw table_name records;
     mret (Some result))
    (mret None).

Definition update_table (table_name : string) (row_id : value) (updates : record) : M σ bool :=
  try_except
    (_ ← update gw table_name [updates ∪ {[ "id" := row_id ]}];
     mret true)
    (mret false).

Definition delete_data (table_name : string) (row_ids : row_ids_arg) : M σ bool :=
  try_except
    (_ ← destroy gw table_name match row_ids with
                               | RowIdList ids => ids
                               | OneRowId row_id => [row_id]
                               end;
     mret true)
    (mret false).

Definition bulk_add_records (table_name : string) (records : list record) : M σ (option (list value)) :=
  add_data table_name (RecordList records).

Definition bulk_update_records (table_name : string) (updates : list record) : M σ (list bool) :=
  try_except
    (_ ← update gw table_name updates;
     mret (replicate (length updates) true))
    (mret (replicate (length updates) false)).

Definition bulk_delete_records (table_name : string) (row_ids : list value) : M σ bool :=
  delete_data table_name (RowIdList row_ids).
End crud.

(** ** Creating a table from a tabular frame *)

(** What [create_table_from_dataframe] uses of a [pandas.DataFrame].  The
    frame library is an external collaborator, like the Gateway. *)
Class Frame (F : Type) : Type := {
  (** [df.empty] *)
  df_empty : F → bool;
  (** [df.dtypes.items()], each dtype rendered by [str] *)
  df_dtypes : F → list (string * string);
  (** [df.replace({pd.NA: None}).to_dict('records')] *)
  df_replace_na_records : F → outcome (list record)
}.

(** [type_map.get(str(dt), 'Text')] for the dtype table of
    [create_table_from_dataframe]. *)
Definition dtype_column_type (dt : string) : string :=
  default "Text"
    (({[ "int64" := "Numeric"; "int32" := "Numeric";
         "float64" := "Numeric"; "float32" := "Numeric";
         "bool" := "Bool"; "datetime64[ns]" := "Date";
         "object" := "Text"; "category" := "Text" ]} : gmap string string) !! dt).

(** [{col: type_map.get(str(dt), 'Text') for col, dt in df.dtypes.items()}];
    a later entry for the same column replaces an earlier one. *)
Definition dataframe_columns (dtypes : list (string * string)) : gmap string string :=
  foldl (λ cols '(col, dt), <[col := dtype_column_type dt]> cols) ∅ dtypes.

Section from_dataframe.
Context {σ : Type} (gw : Gateway σ) {F : Type} `{!Frame F}.

Definition create_table_from_dataframe (table_name : string) (df : F) : M σ (option string) :=
  if df_empty df then mret None
  else
    try_except
      (let cols := dataframe_columns (df_dtypes df) in
       created ← create_table gw table_name cols;
       if negb created then mret None
       else
         records ← (match df_replace_na_records df with
                    | Ok records => mret records
                    | Raise => throw
                    end);
         added ← add_data gw table_name (RecordList records);
         match added with
         | None => mret None
         | Some _ => mret (Some table_name)
         end)
      (mret None).
End from_dataframe.

(** ** Predicate delete *)

(** The inner loop of [bulk_delete_where] for row [i]: [match] stays [True]
    only if every criterion column is in the snapshot, reaches index [i],
    and its cell there does not differ ([!=]) from the wanted value. *)
Definition row_match (table_data : snapshot) (where_ : record) (i : nat) : bool :=
  forallb
    (λ '(col, val),
       match table_data !! col with
       | Some cells =>
           match cells !! i with
           | Some cell => if py_ne cell val then false else true
           | None => false
           end
       | None => false
       end)
    (map_to_list where_).

(** The outer loop, over [enumerate(table_data.get('id', []))] from index
    [i] on: the ids of the matching rows, appended in row order. *)
Fixpoint scan_rows (table_data : snapshot) (where_ : record)
    (i : nat) (ids : list value) : list value :=
  match ids with
  | [] => []
  | row_id :: rest =>
      if row_match table_data where_ i
      then row_id :: scan_rows table_data where_ (S i) rest
      else scan_rows table_data where_ (S i) rest
  end.

Definition matching_row_ids (table_data : snapshot) (where_ : record) : list value :=
  scan_rows table_data where_ 0 (default [] (table_data !! "id")).

Section predicate_delete.
Context {σ : Type} (gw : Gateway σ).

Definition bulk_delete_where (table_name : string) (where_ : record) : M σ bool :=
  try_except
    (table_data ← fetch_table gw table_name;
     let row_ids := matching_row_ids table_data where_ in
     match row_ids with
     | _ :: _ => delete_data gw table_name (RowIdList row_ids)
     | [] => mret true
     end)
    (mret false).
End predicate_delete.

(** ** Table merge *)

(** [target] is used only when it is truthy: [None] and the empty string
    both select the first source. *)
Definition target_given (target : option string) : bool :=
  match target with
  | Some t => negb (String.eqb t "")
  | None => false
  end.

(** [tgt = target if target else sources[0]], for [sources = first :: _]. *)
Definition merge_target (target : option string) (first : string) : string :=
  match target with
  | Some t => if target_given target then t else first
  | None => first
  end.

(** [srcs = sources if target else sources[1:]] *)
Definition merge_sources (target : option string) (sources : list string) : list string :=
  if target_given target then sources else tail sources.

(** [type_map.get(name, 'Text')] for the table of the two merge variants. *)
Definition sample_type_map (name : string) : string :=
  default "Text"
    (({[ "int" := "Numeric"; "float" := "Numeric"; "bool" := "Bool";
         "str" := "Text"; "NoneType" := "Text" ]} : gmap string string) !! name).

(** [next((v for v in cells if v is not None), None)] *)
Definition first_non_none (cells : list value) : value :=
  default VNone (head (filter (λ v, v ≠ VNone) cells)).

Definition sample_column_type (cells : list value) : string :=
  sample_type_map (type_name (first_non_none cells)).

(** [len(src_data.get('id', []))] *)
Definition row_count (src_data : snapshot) : nat :=
  length (default [] (src_data !! "id")).

(** Union mode: the schema of a new target, one entry per column of the
    first source that is not a system column. *)
Definition union_columns (first_source_data : snapshot) : gmap string string :=
  sample_column_type <$> filter (λ kv, kv.1 ∉ system_columns) first_source_data.

(** Union mode: the record of row [i], with every column of the source that
    is not a system column and reaches index [i]. *)
Definition union_record (src_data : snapshot) (i : nat) : record :=
  omap (λ cells : list value, cells !! i)
       (filter (λ kv, kv.1 ∉ system_columns) src_data).

Definition union_records (src_data : snapshot) : list record :=
  union_record src_data <$> seq 0 (row_count src_data).

(** [set(col for col in src_data if col not in ('id', 'manualSort'))] *)
Definition non_system_columns (src_data : snapshot) : gset string :=
  dom src_data ∖ system_columns.

(** Strict mode: the schema of a new target over the common columns;
    [first_source_data[col]] fails on a column the snapshot lacks. *)
Definition strict_columns (common_cols : gset string) (first_source_data : snapshot)
    : option (gmap string string) :=
  foldr (λ col acc,
           cols ← acc;
           cells ← first_source_data !! col;
           Some (<[col := sample_column_type cells]> cols))
        (Some ∅) (elements common_cols).

(** Strict mode: the record of row [i] over the common columns;
    [src_data[col]] fails on a column the snapshot lacks. *)
Definition strict_record (common_cols : gset string) (src_data : snapshot) (i : nat)
    : option record :=
  foldr (λ col acc,
           rec ← acc;
           cells ← src_data !! col;
           Some (match cells !! i with
                 | Some v => <[col := v]> rec
                 | None => rec
                 end))
        (Some ∅) (elements common_cols).

Definition strict_records (common_cols : gset string) (src_data : snapshot)
    : option (list record) :=
  mapM (strict_record common_cols src_data) (seq 0 (row_count src_data)).

(** One entry of the list given to [bulk_merge_tables], with the defaults of
    [config.get] filled in. *)
Record merge_config : Type := {
  cfg_sources : list string;
  cfg_target : option string;
  cfg_create_new : bool;
  cfg_strict : bool
}.

Section merge.
Context {σ : Type} (gw : Gateway σ).

(** The copy loop body shared by both variants: [if records: add_data(...)];
    the result of [add_data] is dropped. *)
Definition add_if_any (tgt : string) (records : list record) : M σ unit :=
  match records with
  | _ :: _ => _ ← add_data gw tgt (RecordList records); mret ()
  | [] => mret ()
  end.

Definition merge_tables (sources : list string) (target : option string)
    (create_new : bool) : M σ bool :=
  try_except
    (match sources with
     | [] => mret false
     | first :: _ =>
         let tgt := merge_target target first in
         let srcs := merge_sources target sources in
         _ ← match create_new, srcs with
             | true, src0 :: _ =>
                 first_source_data ← fetch_table gw src0;
                 _ ← create_table gw tgt (union_columns first_source_data);
                 mret ()
             | _, _ => mret ()
             end;
         _ ← for_each srcs (λ src,
               src_data ← fetch_table gw src;
               add_if_any tgt (union_records src_data));
         mret true
     end)
    (mret false).

(** The first loop of [merge_tables_strict]: intersect the column sets of
    all sources, starting from [common_cols = None]. *)
Fixpoint find_common_cols (sources : list string) (common_cols : option (gset string))
    : M σ (option (gset string)) :=
  match sources with
  | [] => mret common_cols
  | src :: rest =>
      src_data ← fetch_table gw src;
      let src_cols := non_system_columns src_data in
      find_common_cols rest
        (Some match common_cols with
              | None => src_cols
              | Some cols => cols ∩ src_cols
              end)
  end.

Definition merge_tables_strict (sources : list string) (target : option string)
    (create_new : bool) : M σ bool :=
  try_except
    (match sources with
     | [] => mret false
     | first :: _ =>
         let tgt := merge_target target first in
         let srcs := merge_sources target sources in
         found ← find_common_cols sources None;
         match found with
         | None => mret false
         | Some common_cols =>
             if bool_decide (common_cols = ∅) then mret false
             else
               _ ← (if create_new then
                      first_source_data ← fetch_table gw first;
                      cols ← lift_option (strict_columns common_cols first_source_data);
                      _ ← create_table gw tgt cols;
                      mret ()
                    else mret ());
               _ ← for_each srcs (λ src,
                     src_data ← fetch_table gw src;
                     records ← lift_option (strict_records common_cols src_data);
                     add_if_any tgt records);
               mret true
         end
     end)
    (mret false).

Definition get_attachment_url (table_name column_name : string) (row_id : value)
    : M σ value :=
  try_except
    (fetched ← fetch_selected_record gw row_id;
     match fetched with
     | Some rec =>
         match rec !! column_name with
         | Some attachment =>
             if field_truthy attachment then
               match attachment with
               | FStruct members => mret (default VNone (members !! "url"))
               | FScalar _ => throw
               end
             else mret VNone
         | None => mret VNone
         end
     | None => mret VNone
     end)
    (mret VNone).

Fixpoint bulk_merge_tables (tables : list merge_config) : M σ bool :=
  match tables with
  | [] => mret true
  | config :: rest =>
      success ← (if cfg_strict config
                 then merge_tables_strict (cfg_sources config) (cfg_target config)
                        (cfg_create_new config)
                 else merge_tables (cfg_sources config) (cfg_target config)
                        (cfg_create_new config));
      if (success : bool) then bulk_merge_tables rest else mret false
  end.
End merge.

(** ** A Gateway held in memory

    A reference implementation of the Gateway interface, used to run the
    Service on concrete tables.  Tables are stored column-oriented, as they
    are fetched; a table comes into being with its first row. *)

Record store : Type := {
  st_tables : gmap string snapshot;
  st_next_id : Z;
  st_selected : list (value * selected_record)
}.

(** Append one row to a table of [n] rows; a column the table did not have
    yet is filled with [None] above the new row. *)
Definition append_row (n : nat) (row : record) (snap : snapshot) : snapshot :=
  merge (λ cells v,
           match cells, v with
           | None, None => None
           | _, _ => Some (resize n VNone (default [] cells) ++ [default VNone v])
           end)
        snap row.

Fixpoint append_rows (next_id : Z) (records : list record) (snap : snapshot)
    : snapshot * list value :=
  match records with
  | [] => (snap, [])
  | rec :: rest =>
      let row := <["id" := VInt next_id]> (<["manualSort" := VInt next_id]> rec) in
      let '(snap', ids) := append_rows (next_id + 1) rest (append_row (row_count snap) row snap) in
      (snap', VInt next_id :: ids)
  end.

(** Keep the cells whose position is marked [true]. *)
Definition keep_cells (keep : list bool) (cells : list value) : list value :=
  omap (λ '(k, c), if k : bool then Some c else None) (zip keep cells).

Definition drop_rows (row_ids : list value) (snap : snapshot) : snapshot :=
  let keep := (λ v, bool_decide (v ∉ row_ids)) <$> default [] (snap !! "id") in
  keep_cells keep <$> snap.

(** Overwrite the fields of one record in the row that carries its [id]. *)
Definition update_row (rec : record) (snap : snapshot) : option snapshot :=
  row_id ← rec !! "id";
  '(k, _) ← list_find (λ v, v = row_id) (default [] (snap !! "id"));
  Some (merge (λ cells v,
                 match cells, v with
                 | Some cs, Some v => Some (<[k := v]> cs)
                 | _, _ => cells
                 end)
              snap (delete "id" rec)).

Definition mem_gateway : Gateway store := {|
  gw_fetch_table table st :=
    match st_tables st !! table with
    | Some snap => (Ok snap, st)
    | None => (Raise, st)
    end;
  gw_create table records st :=
    let '(snap, ids) :=
      append_rows (st_next_id st) records (default ∅ (st_tables st !! table)) in
    (Ok ids,
     {| st_tables := <[table := snap]> (st_tables st);
        st_next_id := st_next_id st + Z.of_nat (length records);
        st_selected := st_selected st |});
  gw_update table records st :=
    match st_tables st !! table ≫= λ snap, foldl (λ acc rec, acc ≫= update_row rec) (Some snap) records with
    | Some snap =>
        (Ok (), {| st_tables := <[table := snap]> (st_tables st);
                   st_next_id := st_next_id st;
                   st_selected := st_selected st |})
    | None => (Raise, st)
    end;
  gw_destroy table row_ids st :=
    match st_tables st !! table with
    | Some snap =>
        (Ok (), {| st_tables := <[table := drop_rows row_ids snap]> (st_tables st);
                   st_next_id := st_next_id st;
                   st_selected := st_selected st |})
    | None => (Raise, st)
    end;
  gw_fetch_selected_record row_id st :=
    (Ok ((λ hit, hit.2.2) <$> list_find (λ p, p.1 = row_id) (st_selected st)), st)
|}.

(** ** A frame of object columns

    A small implementation of the frame interface: named columns of cells,
    a cell being a value or the missing-value marker [pd.NA]. *)
Inductive cell : Type :=
  | CNA
  | CVal (v : value).

Record list_frame : Type := {
  lf_columns : list (string * string * list cell)
}.

Definition lf_row_count (df : list_frame) : nat :=
  match lf_columns df with
  | (_, _, cells) :: _ => length cells
  | [] => 0
  end.

Definition lf_record (df : list_frame) (i : nat) : record :=
  foldl (λ rec '(col, _, cells),
           match cells !! i with
           | Some (CVal v) => <[col := v]> rec
           | Some CNA => <[col := VNone]> rec
           | None => rec
           end)
        ∅ (lf_columns df).

#[global] Instance list_frame_Frame : Frame list_frame := {|
  df_empty df := bool_decide (lf_columns df = []) || bool_decide (lf_row_count df = 0);
  df_dtypes df := (λ '(col, dt, _), (col, dt)) <$> lf_columns df;
  df_replace_na_records df := Ok (lf_record df <$> seq 0 (lf_row_count df))
|}.

(** ** Fetching a table as a frame *)

(** What [fetch_table_to_dataframe] uses of the frame library: the two ways
    it builds a frame.  The order of the columns of a frame is not part of
    the model. *)
Class FrameBuilder (F : Type) : Type := {
  (** [pd.DataFrame(columns)], which fails on columns of unequal length *)
  df_from_columns : snapshot → outcome F;
  (** [pd.DataFrame()] *)
  df_blank : F
}.

(** [{k: v for k, v in table_data.items() if k not in ['id', 'manualSort']}] *)
Definition user_columns (table_data : snapshot) : snapshot :=
  filter (λ kv, kv.1 ∉ system_columns) table_data.

Section to_dataframe.
Context {σ : Type} (gw : Gateway σ) {F : Type} `{!FrameBuilder F}.

Definition fetch_table_to_dataframe (table_name : string) : M σ F :=
  try_except
    (table_data ← fetch_table gw table_name;
     match df_from_columns (user_columns table_data) with
     | Ok df => mret df
     | Raise => throw
     end)
    (mret df_blank).
End to_dataframe.

(** ** The public facade ([keyward/api.py])

    Each method of [KeywardApi] awaits the Service operation of the same
    purpose and returns its result.  The attribute [connected], set when
    the instance is made, is never read. *)
Module KeywardApi.
Section facade.
Context {σ : Type} (gw : Gateway σ) {F : Type} `{!Frame F} `{!FrameBuilder F}.

Definition create_table (table_name : string) (columns : gmap string string) : M σ bool :=
  create_table gw table_name columns.

Definition add_record (table_name : string) (record : record)
    : M σ (option (list value)) :=
  add_data gw table_name (OneRecord record).

Definition add_records (table_name : string) (records : list record)
    : M σ (option (list value)) :=
  add_data gw table_name (RecordList records).

Definition get_table (table_name : string) : M σ F :=
  fetch_table_to_dataframe gw table_name.

Definition update_record (table_name : string) (record_id : value) (updates : record)
    : M σ bool :=
  update_table gw table_name record_id updates.

Definition delete_record (table_name : string) (record_id : value) : M σ bool :=
  delete_data gw table_name (OneRowId record_id).

Definition merge_tables (sources : list string) (target : option string)
    (create_new : bool) : M σ bool :=
  merge_tables gw sources target create_new.

Definition create_from_dataframe (table_name : string) (dataframe : F)
    : M σ (option string) :=
  create_table_from_dataframe gw table_name dataframe.

Definition bulk_update_records (table_name : string) (updates : list record)
    : M σ (list bool) :=
  bulk_update_records gw table_name updates.

Definition bulk_delete_records (table_name : string) (record_ids : list value)
    : M σ bool :=
  bulk_delete_records gw table_name record_ids.

Definition get_attachment_url (table_name column_name : string) (record_id : value)
    : M σ value :=
  get_attachment_url gw table_name column_name record_id.
End facade.
End KeywardApi.

(** ** Vocabulary for the statements *)

(** A request that changes what the Gateway stores. *)
Definition is_write (e : event) : bool :=
  match e with
  | ECreate _ _ _ | EUpdate _ _ _ | EDestroy _ _ _ => true
  | EFetchTable _ _ | EFetchSelected _ _ => false
  end.

(** The Gateway's contract for [create]: one identifier per record given. *)
Definition create_returns_ids {σ} (gw : Gateway σ) : Prop :=
  ∀ table records st ids st',
    gw_create gw table records st = (Ok ids, st') → length ids = length records.


(** Two numbers are the same: equal rationals, or the same infinity. *)
Definition same_number (x y : number) : Prop :=
  match x, y with
  | Finite p, Finite q => Qeq p q
  | Infinite s, Infinite t => s = t
  | _, _ => False
  end.

(** What Python's [==] relates: [None] and [None], a string and the same
    string, and two numeric values (booleans, integers, floats) that stand
    for the same number.  NaN stands for no number and is related to
    nothing. *)
Inductive py_equal : value → value → Prop :=
  | py_equal_none : py_equal VNone VNone
  | py_equal_str s : py_equal (VStr s) (VStr s)
  | py_equal_number a b x y :
      number_of a = Some x → number_of b = Some y → same_number x y →
      py_equal a b.

(** Row [i] satisfies the criteria when every criterion column is in the
    snapshot and has a cell at [i] related to the wanted value by [R]. *)
Definition row_satisfies (R : value → value → Prop)
    (table_data : snapshot) (where_ : record) (i : nat) : Prop :=
  ∀ col val, where_ !! col = Some val →
    ∃ cells cell, table_data !! col = Some cells ∧ cells !! i = Some cell ∧ R cell val.

(** The rows of the id column paired with their index, as [enumerate]
    yields them. *)
Definition enumerate {A} (l : list A) : list (nat * A) := imap pair l.

(** One step of the intersection loop of the strict merge. *)
Definition intersect_columns (common_cols : option (gset string)) (src_data : snapshot)
    : option (gset string) :=
  Some match common_cols with
       | None => non_system_columns src_data
       | Some cols => cols ∩ non_system_columns src_data
       end.

(** Fetching the given tables one after the other. *)
Fixpoint fetch_each {σ} (gw : Gateway σ) (tables : list string) : M σ (list snapshot) :=
  match tables with
  | [] => mret []
  | table :: rest =>
      snap ← fetch_table gw table;
      snaps ← fetch_each gw rest;
      mret (snap :: snaps)
  end.

(** The log of [create_table tgt cols]: the throwaway row is created and,
    when the Gateway returned an identifier for it, that identifier is
    destroyed. *)
Inductive throwaway_log (tgt : string) (cols : gmap string string) : list event → Prop :=
  | throwaway_removed row_id ids r :
      throwaway_log tgt cols
        [ECreate tgt [dummy_record cols] (Ok (row_id :: ids)); EDestroy tgt [row_id] r]
  | throwaway_no_id :
      throwaway_log tgt cols [ECreate tgt [dummy_record cols] (Ok [])]
  | throwaway_failed :
      throwaway_log tgt cols [ECreate tgt [dummy_record cols] Raise].

(** The log of the schema step of the union merge; the flag tells whether
    the step ran to its end. *)
Inductive schema_log (tgt : string) : list string → bool → bool → list event → Prop :=
  | schema_not_asked srcs :
      schema_log tgt srcs false true []
  | schema_no_source :
      schema_log tgt [] true true []
  | schema_created src0 srcs first_source_data tr :
      throwaway_log tgt (union_columns first_source_data) tr →
      schema_log tgt (src0 :: srcs) true true (EFetchTable src0 (Ok first_source_data) :: tr)
  | schema_fetch_failed src0 srcs :
      schema_log tgt (src0 :: srcs) true false [EFetchTable src0 Raise].

(** The log of the copy loop of the union merge over the sources [srcs]:
    each source is fetched and, if it has rows, its records are created in
    [tgt]; a fetch that raises ends the loop.  The flag tells whether the
    loop ran to its end. *)
Inductive copy_log (tgt : string) : list string → bool → list event → Prop :=
  | copy_done :
      copy_log tgt [] true []
  | copy_rows src srcs src_data r finished tr :
      union_records src_data ≠ [] →
      copy_log tgt srcs finished tr →
      copy_log tgt (src :: srcs) finished
        (EFetchTable src (Ok src_data) :: ECreate tgt (union_records src_data) r :: tr)
  | copy_no_rows src srcs src_data finished tr :
      union_records src_data = [] →
      copy_log tgt srcs finished tr →
      copy_log tgt (src :: srcs) finished (EFetchTable src (Ok src_data) :: tr)
  | copy_fetch_failed src srcs :
      copy_log tgt (src :: srcs) false [EFetchTable src Raise].

(** What the union merge into [tgt] from [srcs] may issue, [tr] being its
    whole log: a fetch of one of [srcs], a [create] in [tgt], or the
    [destroy] in [tgt] of an identifier the Gateway had returned for a
    throwaway row of that log. *)
Definition allowed_event (tgt : string) (srcs : list string) (tr : list event)
    (e : event) : Prop :=
  match e with
  | EFetchTable src _ => src ∈ srcs
  | ECreate table _ _ => table = tgt
  | EDestroy table row_ids _ =>
      table = tgt ∧
      ∃ row_id ids cols,
        row_ids = [row_id] ∧
        ECreate tgt [dummy_record cols] (Ok (row_id :: ids)) ∈ tr
  | EUpdate _ _ _ | EFetchSelected _ _ => False
  end.

Definition appends_only (tgt : string) (srcs : list string) (tr : list event) : Prop :=
  ∀ e, e ∈ tr → allowed_event tgt srcs tr e.

(** ** More vocabulary *)

(** A computation from which no failure of class [Exception] comes out,
    whatever the Gateway state. *)
Definition never_raises {σ A} (m : M σ A) : Prop :=
  ∀ st, ∃ a st' tr, m st = (Ok a, st', tr).

(** A log without any write. *)
Definition reads_only (tr : list event) : Prop :=
  Forall (λ e, is_write e = false) tr.

(** The URL an answer of [fetch_selected_record] holds for a column: the
    [url] member of the structure in that field, if there is one. *)
Definition attachment_url (fetched : outcome (option selected_record))
    (column_name : string) : value :=
  match fetched with
  | Ok (Some rec) =>
      match rec !! column_name with
      | Some (FStruct members) => default VNone (members !! "url")
      | _ => VNone
      end
  | _ => VNone
  end.

(** A request the Gateway answered by raising. *)
Definition event_failed (e : event) : bool :=
  match e with
  | EFetchTable _ r => negb (is_ok r)
  | ECreate _ _ r => negb (is_ok r)
  | EUpdate _ _ r => negb (is_ok r)
  | EDestroy _ _ r => negb (is_ok r)
  | EFetchSelected _ r => negb (is_ok r)
  end.

(** The column types the Service ever declares. *)
Definition column_types : list string := ["Numeric"; "Bool"; "Date"; "Text"].

(** The log of the schema step of the strict merge over the common columns
    [common_cols], [first] being the first source; the flags are
    [create_new] and whether the step ran to its end. *)
Inductive strict_schema_log (tgt : string) (common_cols : gset string) (first : string)
    : bool → bool → list event → Prop :=
  | strict_schema_not_asked :
      strict_schema_log tgt common_cols first false true []
  | strict_schema_created first_source_data cols tr :
      strict_columns common_cols first_source_data = Some cols →
      throwaway_log tgt cols tr →
      strict_schema_log tgt common_cols first true true
        (EFetchTable first (Ok first_source_data) :: tr)
  | strict_schema_missing_column first_source_data :
      strict_columns common_cols first_source_data = None →
      strict_schema_log tgt common_cols first true false
        [EFetchTable first (Ok first_source_data)]
  | strict_schema_fetch_failed :
      strict_schema_log tgt common_cols first true false [EFetchTable first Raise].

(** The log of the copy loop of the strict merge: each source is fetched
    and, if it has rows, their records over the common columns are created
    in [tgt]; a fetch that raises, or a snapshot that lacks a common column
    though it has rows, ends the loop. *)
Inductive strict_copy_log (tgt : string) (common_cols : gset string)
    : list string → bool → list event → Prop :=
  | strict_copy_done :
      strict_copy_log tgt common_cols [] true []
  | strict_copy_rows src srcs src_data rec records r finished tr :
      strict_records common_cols src_data = Some (rec :: records) →
      strict_copy_log tgt common_cols srcs finished tr →
      strict_copy_log tgt common_cols (src :: srcs) finished
        (EFetchTable src (Ok src_data) :: ECreate tgt (rec :: records) r :: tr)
  | strict_copy_no_rows src srcs src_data finished tr :
      strict_records common_cols src_data = Some [] →
      strict_copy_log tgt common_cols srcs finished tr →
      strict_copy_log tgt common_cols (src :: srcs) finished
        (EFetchTable src (Ok src_data) :: tr)
  | strict_copy_missing_column src srcs src_data :
      strict_records common_cols src_data = None →
      strict_copy_log tgt common_cols (src :: srcs) false
        [EFetchTable src (Ok src_data)]
  | strict_copy_fetch_failed src srcs :
      strict_copy_log tgt common_cols (src :: srcs) false [EFetchTable src Raise].

(** The run of [bulk_merge_tables] over a list of configurations from a
    Gateway state: the merge each configuration selects (strict or union) is
    run on the state the one before it left, as long as the merges answer
    [True]; the first that answers [False] ends the run, and nothing is
    requested for the configurations after it. *)
Inductive merges_in_order {σ} (gw : Gateway σ)
    : list merge_config → σ → bool → σ → list event → Prop :=
  | merges_done st :
      merges_in_order gw [] st true st []
  | merges_union_ok config rest st st1 tr1 b st2 tr2 :
      cfg_strict config = false →
      merge_tables gw (cfg_sources config) (cfg_target config) (cfg_create_new config) st
      = (Ok true, st1, tr1) →
      merges_in_order gw rest st1 b st2 tr2 →
      merges_in_order gw (config :: rest) st b st2 (tr1 ++ tr2)
  | merges_strict_ok config rest st st1 tr1 b st2 tr2 :
      cfg_strict config = true →
      merge_tables_strict gw (cfg_sources config) (cfg_target config)
        (cfg_create_new config) st
      = (Ok true, st1, tr1) →
      merges_in_order gw rest st1 b st2 tr2 →
      merges_in_order gw (config :: rest) st b st2 (tr1 ++ tr2)
  | merges_union_failed config rest st st1 tr1 :
      cfg_strict config = false →
      merge_tables gw (cfg_sources config) (cfg_target config) (cfg_create_new config) st
      = (Ok false, st1, tr1) →
      merges_in_order gw (config :: rest) st false st1 tr1
  | merges_strict_failed config rest st st1 tr1 :
      cfg_strict config = true →
      merge_tables_strict gw (cfg_sources config) (cfg_target config)
        (cfg_create_new config) st
      = (Ok false, st1, tr1) →
      merges_in_order gw (config :: rest) st false st1 tr1.

(** ** Concrete tables and frames

    A store with a one-row table [S1], a two-row table [S2] that has one
    column more, and a task list; an empty frame.  The statements below are
    run on them. *)

(** A task list whose [done] column holds the integers 1 and 0. *)
Definition tasks_snapshot : snapshot :=
  {[ "id" := [VInt 7; VInt 8]; "manualSort" := [VInt 7; VInt 8];
     "title" := [VStr "write"; VStr "read"];
     "done" := [VInt 1; VInt 0] ]}.

(** Readings whose [level] column holds the floats 1.0 and NaN. *)
Definition readings_snapshot : snapshot :=
  {[ "id" := [VInt 1; VInt 2]; "manualSort" := [VInt 1; VInt 2];
     "level" := [VFloat (S754_finite false 4503599627370496 (-52));
                 VFloat S754_nan] ]}.

Definition s1_snapshot : snapshot :=
  {[ "id" := [VInt 1]; "manualSort" := [VInt 1]; "x" := [VStr "a"] ]}.

Definition s2_snapshot : snapshot :=
  {[ "id" := [VInt 1; VInt 2]; "manualSort" := [VInt 1; VInt 2];
     "x" := [VStr "b"; VStr "c"]; "z" := [VInt 5; VNone] ]}.

Definition demo_store : store := {|
  st_tables := {[ "S1" := s1_snapshot; "S2" := s2_snapshot; "Tasks" := tasks_snapshot ]};
  st_next_id := 10;
  st_selected := []
|}.

Definition demo_record : record := {[ "x" := VStr "d" ]}.


Definition empty_frame : list_frame := {| lf_columns := [] |}.


(** A Gateway that serves the tables of a store, an unknown table being
    empty, and refuses every write. *)
Definition read_only_gateway : Gateway store := {|
  gw_fetch_table table st := (Ok (default ∅ (st_tables st !! table)), st);
  gw_create table records st := (Raise, st);
  gw_update table records st := (Raise, st);
  gw_destroy table row_ids st := (Raise, st);
  gw_fetch_selected_record row_id st :=
    (Ok ((λ hit, hit.2.2) <$> list_find (λ p, p.1 = row_id) (st_selected st)), st)
|}.

(** A Gateway that stores as the one held in memory does, but whose
    [create] returns no identifier. *)
Definition forgetful_gateway : Gateway store := {|
  gw_fetch_table := gw_fetch_table mem_gateway;
  gw_create table records st := (Ok [], (gw_create mem_gateway table records st).2);
  gw_update := gw_update mem_gateway;
  gw_destroy := gw_destroy mem_gateway;
  gw_fetch_selected_record := gw_fetch_selected_record mem_gateway
|}.

(** A frame of two people, one of unknown age. *)
Definition people_frame : list_frame := {|
  lf_columns := [("name", "object", [CVal (VStr "ann"); CVal (VStr "bob")]);
                 ("age", "int64", [CVal (VInt 30); CNA])]
|}.

(** A store whose selected table has a row 3 with an attachment. *)
Definition attachment_store : store := {|
  st_tables := ∅;
  st_next_id := 4;
  st_selected :=
    [(VInt 3, {[ "title" := FScalar (VStr "report");
                 "file" := FStruct {[ "url" := VStr "https://files/report.pdf";
                                      "size" := VInt 2048 ]} ]})]
|}.

(** * Properties *)

(** ** Values *)

Lemma number_eqb_spec x y : number_eqb x y = true ↔ same_number x y.
Proof.
  destruct x as [p|s], y as [q|t]; simpl; try done.
  - apply Qeq_bool_iff.
  - split; [apply Bool.eqb_prop|intros ->; apply Bool.eqb_reflx].
Qed.

Lemma py_eq_numbers a b x y :
  number_of a = Some x → number_of b = Some y → py_eq a b = number_eqb x y.
Proof.
  intros Ha Hb. destruct a, b; try done; unfold py_eq; by rewrite Ha, Hb.
Qed.

Lemma py_eq_spec a b : py_eq a b = true ↔ py_equal a b.
Proof.
  split.
  - destruct (number_of a) as [x|] eqn:Ha, (number_of b) as [y|] eqn:Hb.
    + rewrite (py_eq_numbers a b x y Ha Hb), number_eqb_spec.
      by apply py_equal_number.
    + destruct a, b; try done; unfold py_eq; by rewrite ?Ha, ?Hb.
    + destruct a, b; try done; unfold py_eq; by rewrite ?Ha, ?Hb.
    + destruct a as [| | |f|s], b as [| | |g|t]; try done;
        unfold py_eq; rewrite ?Ha, ?Hb; try done.
      * intros _. constructor.
      * intros ->%String.eqb_eq. constructor.
  - intros [|s|a' b' x y Ha Hb Hsame].
    + done.
    + simpl. apply String.eqb_refl.
    + rewrite (py_eq_numbers a' b' x y Ha Hb). by apply number_eqb_spec.
Qed.

(** NaN is equal to nothing. *)
Lemma py_equal_nan v :
  ¬ py_equal (VFloat S754_nan) v ∧ ¬ py_equal v (VFloat S754_nan).
Proof. split; by inversion 1. Qed.

(** Integers are equal when they are the same integer, and a boolean is
    equal to the integer it counts as. *)
Lemma py_equal_int m n : py_equal (VInt m) (VInt n) ↔ m = n.
Proof.
  split.
  - inversion 1 as [| |? ? x y Hx Hy Hsame]; simplify_eq/=.
    by apply inject_Z_injective.
  - intros ->. by eapply py_equal_number.
Qed.

Lemma py_equal_bool_int b n : py_equal (VBool b) (VInt n) ↔ n = Z.b2z b.
Proof.
  split.
  - inversion 1 as [| |? ? x y Hx Hy Hsame]; simplify_eq/=.
    symmetry. by apply inject_Z_injective.
  - intros ->. by eapply py_equal_number.
Qed.

(** Only a string is equal to a string. *)
Lemma py_equal_only_str a s : py_equal a (VStr s) ↔ a = VStr s.
Proof.
  split.
  - by inversion 1.
  - intros ->. constructor.
Qed.

(** The float 1.0 is equal to the integer 1 and to [True]; NaN is not
    equal to itself. *)
Example py_eq_floats :
  py_eq (VFloat (S754_finite false 4503599627370496 (-52))) (VInt 1) = true ∧
  py_eq (VBool true) (VFloat (S754_finite false 4503599627370496 (-52))) = true ∧
  py_eq (VFloat (S754_finite false 1 (-1))) (VFloat (S754_finite false 2 (-2))) = true ∧
  py_eq (VFloat (S754_zero true)) (VBool false) = true ∧
  py_eq (VFloat S754_nan) (VFloat S754_nan) = false.
Proof. by vm_compute. Qed.

(** ** The monad *)

Section monad_facts.
Context {σ : Type}.

Lemma run_bind {A B} (m : M σ A) (f : A → M σ B) st :
  (m ≫= f) st =
  match m st with
  | (Ok a, st1, tr1) => let '(r, st2, tr2) := f a st1 in (r, st2, tr1 ++ tr2)
  | (Raise, st1, tr1) => (Raise, st1, tr1)
  end.
Proof. reflexivity. Qed.

Lemma run_bind_ok {A B} (m : M σ A) (f : A → M σ B) st a st1 tr1 :
  m st = (Ok a, st1, tr1) →
  (m ≫= f) st = let '(r, st2, tr2) := f a st1 in (r, st2, tr1 ++ tr2).
Proof. intros Hm. rewrite run_bind, Hm. reflexivity. Qed.

Lemma run_bind_raise {A B} (m : M σ A) (f : A → M σ B) st st1 tr1 :
  m st = (Raise, st1, tr1) → (m ≫= f) st = (Raise, st1, tr1).
Proof. intros Hm. rewrite run_bind, Hm. reflexivity. Qed.

Lemma run_ret {A} (a : A) (st : σ) : (mret a : M σ A) st = (Ok a, st, []).
Proof. reflexivity. Qed.

Lemma run_try_ok {A} (body handler : M σ A) st a st1 tr1 :
  body st = (Ok a, st1, tr1) → try_except body handler st = (Ok a, st1, tr1).
Proof. unfold try_except. intros ->. reflexivity. Qed.

Lemma run_try_raise {A} (body handler : M σ A) st st1 tr1 :
  body st = (Raise, st1, tr1) →
  try_except body handler st = let '(r, st2, tr2) := handler st1 in (r, st2, tr1 ++ tr2).
Proof. unfold try_except. intros ->. reflexivity. Qed.

End monad_facts.

(** Unfold the requests and the monad down to the Gateway's answers. *)
Ltac unfold_service :=
  unfold try_except, fetch_table, create, update, destroy, fetch_selected_record,
    lift_option, throw, mbind, M_bind, mret, M_ret in *.

(** ** Table creation and record CRUD *)

Section crud_facts.
Context {σ : Type} (gw : Gateway σ).

(** [create_table] never raises, and its log is that of a throwaway row;
    it answers [True] only when nothing raised. *)
Lemma create_table_log table_name columns st :
  ∃ b st' tr,
    create_table gw table_name columns st = (Ok b, st', tr) ∧
    throwaway_log table_name columns tr ∧
    (b = true →
     tr = [ECreate table_name [dummy_record columns] (Ok [])] ∨
     ∃ row_id ids,
       tr = [ECreate table_name [dummy_record columns] (Ok (row_id :: ids));
             EDestroy table_name [row_id] (Ok ())]).
Proof.
  unfold create_table. unfold_service.
  destruct (gw_create gw table_name [dummy_record columns] st) as [[ids|] st1] eqn:Hc.
  - destruct ids as [|row_id ids].
    + eexists _, _, _. split; [reflexivity|]. split; [constructor|]. auto.
    + destruct (gw_destroy gw table_name [row_id] st1) as [[[]|] st2] eqn:Hd.
      * eexists _, _, _. split; [reflexivity|]. split; [constructor|]. eauto.
      * eexists _, _, _. split; [reflexivity|]. split; [constructor|]. discriminate.
  - eexists _, _, _. split; [reflexivity|]. split; [constructor|]. discriminate.
Qed.

(** [add_data] never raises and issues exactly one [create]. *)
Lemma add_data_log table_name records st :
  ∃ added st' r,
    add_data gw table_name (RecordList records) st
    = (Ok added, st', [ECreate table_name records r]).
Proof.
  unfold add_data. unfold_service.
  destruct (gw_create gw table_name records st) as [[ids|] st1]; eauto.
Qed.

End crud_facts.

(** ** The Gateway held in memory keeps the contract *)

Lemma append_rows_ids next_id records snap :
  length (append_rows next_id records snap).2 = length records.
Proof.
  revert next_id snap. induction records as [|rec rest IH]; intros next_id snap; simpl.
  - reflexivity.
  - specialize (IH (next_id + 1)%Z
      (append_row (row_count snap)
         (<["id" := VInt next_id]> (<["manualSort" := VInt next_id]> rec)) snap)).
    destruct (append_rows _ rest _) as [snap' ids]. simpl in *. by rewrite IH.
Qed.

Lemma mem_gateway_create_returns_ids : create_returns_ids mem_gateway.
Proof.
  intros table records st ids st'. simpl.
  pose proof (append_rows_ids (st_next_id st) records (default ∅ (st_tables st !! table))) as Hlen.
  destruct (append_rows _ records _) as [snap ids0]. simpl in Hlen.
  intros [= <- _]. exact Hlen.
Qed.

(** ** Claims about table creation and record CRUD *)

(** C1, as the code has it: for every table name and column mapping,
    [create_table] issues exactly one [create], of the single throwaway
    record.  If the Gateway returns identifiers, it then issues one
    [destroy] of exactly the first identifier returned and answers [True]
    if that [destroy] returned, [False] if it raised.  If the Gateway
    returns no identifier, it answers [True] without any [destroy].  If the
    [create] raises, it answers [False].  Nothing else is requested. *)
Theorem create_table_throwaway_row_steps {σ} (gw : Gateway σ)
    (table_name : string) (columns : gmap string string) (st : σ) :
  let '(r, st1) := gw_create gw table_name [dummy_record columns] st in
  create_table gw table_name columns st =
  match r with
  | Ok (row_id :: _) =>
      let '(r', st2) := gw_destroy gw table_name [row_id] st1 in
      (Ok (is_ok r'), st2,
       [ECreate table_name [dummy_record columns] r; EDestroy table_name [row_id] r'])
  | Ok [] => (Ok true, st1, [ECreate table_name [dummy_record columns] r])
  | Raise => (Ok false, st1, [ECreate table_name [dummy_record columns] r])
  end.
Proof.
  unfold create_table. unfold_service.
  destruct (gw_create gw table_name [dummy_record columns] st) as [[[|row_id ids]|] st1];
    [reflexivity| |reflexivity].
  destruct (gw_destroy gw table_name [row_id] st1) as [[[]|] st2]; reflexivity.
Qed.

Lemma create_table_throwaway_row_steps_witness :
  ∃ st',
    create_table mem_gateway "T" {[ "Name" := "Text"; "Age" := "Numeric" ]} demo_store
    = (Ok true, st',
       [ECreate "T" [{[ "Name" := VStr ""; "Age" := VInt 0 ]}] (Ok [VInt 10]);
        EDestroy "T" [VInt 10] (Ok ())]) ∧
    row_count (default ∅ (st_tables st' !! "T")) = 0.
Proof.
  pose proof (create_table_throwaway_row_steps mem_gateway "T"
                {[ "Name" := "Text"; "Age" := "Numeric" ]} demo_store) as Hrun.
  eexists. rewrite Hrun. split; vm_compute; reflexivity.
Defined.

(** C1, as stated, fails: the Gateway below stores the throwaway row but
    returns no identifier for it; [create_table] answers [True] without any
    [destroy], and the row is still in the table. *)
Lemma create_table_keeps_row_without_identifier :
  ∃ st',
    create_table forgetful_gateway "T" {[ "Name" := "Text" ]} demo_store
    = (Ok true, st', [ECreate "T" [{[ "Name" := VStr "" ]}] (Ok [])]) ∧
    st_tables st' !! "T"
    = Some {[ "id" := [VInt 10]; "manualSort" := [VInt 10]; "Name" := [VStr ""] ]}.
Proof. eexists. split; vm_compute; reflexivity. Qed.

(** C5: for every list of [n] row updates, [bulk_update_records] issues the
    single Gateway [update] and returns [n] booleans, all [True] when that
    call returned and all [False] when it raised. *)
Theorem bulk_update_records_all_or_nothing {σ} (gw : Gateway σ)
    (table_name : string) (updates : list record) (st : σ) :
  let '(r, st') := gw_update gw table_name updates st in
  bulk_update_records gw table_name updates st
  = (Ok (replicate (length updates) (is_ok r)), st', [EUpdate table_name updates r]).
Proof.
  unfold bulk_update_records. unfold_service.
  destruct (gw_update gw table_name updates st) as [[[]|] st1]; reflexivity.
Qed.

(** C6: [add_data] with a single record behaves exactly as [add_data] with
    the one-element list holding that record (same result, same Gateway
    state, same log); and when the Gateway's [create] returns one identifier
    per record, the identifier list returned has length 1. *)
Theorem add_data_single_record {σ} (gw : Gateway σ)
    (table_name : string) (rec : record) (st : σ) :
  add_data gw table_name (OneRecord rec) st
  = add_data gw table_name (RecordList [rec]) st ∧
  (create_returns_ids gw →
   ∀ ids st' tr,
     add_data gw table_name (OneRecord rec) st = (Ok (Some ids), st', tr) →
     length ids = 1).
Proof.
  split; [reflexivity|].
  intros Hcontract ids st' tr. unfold add_data. unfold_service.
  destruct (gw_create gw table_name [rec] st) as [[ids0|] st1] eqn:Hc.
  - intros [= <- _ _]. by apply Hcontract in Hc.
  - discriminate.
Qed.

Lemma add_data_single_record_witness :
  ∃ ids st' tr,
    add_data mem_gateway "S1" (RecordList [demo_record]) demo_store
    = (Ok (Some ids), st', tr) ∧
    length ids = 1.
Proof.
  destruct (add_data_single_record mem_gateway "S1" demo_record demo_store) as [Heq Hlen].
  destruct (add_data mem_gateway "S1" (OneRecord demo_record) demo_store)
    as [[[[ids|]|] st'] tr] eqn:Hrun.
  - exists ids, st', tr. split; [by rewrite <- Heq|].
    by eapply (Hlen mem_gateway_create_returns_ids).
  - vm_compute in Hrun. discriminate Hrun.
  - vm_compute in Hrun. discriminate Hrun.
Defined.

(** C7: for every table name, [create_table_from_dataframe] on an empty
    frame returns [None], issues no Gateway request and leaves the Gateway
    state as it was. *)
Theorem create_table_from_dataframe_empty {σ} (gw : Gateway σ)
    {F : Type} `{!Frame F} (table_name : string) (df : F) (st : σ) :
  df_empty df = true →
  create_table_from_dataframe gw table_name df st = (Ok None, st, []).
Proof. intros Hempty. unfold create_table_from_dataframe. rewrite Hempty. reflexivity. Qed.

Lemma create_table_from_dataframe_empty_witness :
  create_table_from_dataframe mem_gateway "T" empty_frame demo_store
  = (Ok None, demo_store, []).
Proof. apply create_table_from_dataframe_empty. reflexivity. Defined.

(** When [create_table_from_dataframe] answers with the table name, the
    rows it has created after the throwaway row are exactly the records the
    frame library produced for [df.replace({pd.NA: None}).to_dict('records')]. *)
Lemma create_table_from_dataframe_log {σ} (gw : Gateway σ)
    {F : Type} `{!Frame F} (table_name : string) (df : F) (st : σ) r st' tr :
  create_table_from_dataframe gw table_name df st = (r, st', tr) →
  ∃ answer,
    r = Ok answer ∧
    (is_Some answer →
     answer = Some table_name ∧
     ∃ records tr_new ids,
       df_replace_na_records df = Ok records ∧
       throwaway_log table_name (dataframe_columns (df_dtypes df)) tr_new ∧
       tr = tr_new ++ [ECreate table_name records (Ok ids)]).
Proof.
  unfold create_table_from_dataframe. destruct (df_empty df).
  { intros [= <- _ _]. exists None. split; [done|]. by intros [? [=]]. }
  unfold try_except. rewrite run_bind.
  destruct (create_table_log gw table_name (dataframe_columns (df_dtypes df)) st)
    as (b & st1 & tr1 & -> & Hlog & _).
  destruct b; simpl.
  - destruct (df_replace_na_records df) as [records|].
    + rewrite run_bind, run_ret, run_bind. unfold add_data. unfold_service.
      destruct (gw_create gw table_name records st1) as [[ids|] st2]; simpl.
      * intros [= <- _ <-]. exists (Some table_name). split; [done|]. intros _.
        split; [done|]. exists records, tr1, ids. split_and!; done.
      * intros [= <- _ _]. exists None. split; [done|]. by intros [? [=]].
    + unfold_service. simpl. intros [= <- _ _]. exists None. split; [done|]. by intros [? [=]].
  - intros [= <- _ _]. exists None. split; [done|]. by intros [? [=]].
Qed.

(** C10: for every column name, row identifier, Gateway and Gateway state,
    [get_attachment_url] gives the same result, state and log for any two
    [table_name] arguments. *)
Theorem get_attachment_url_ignores_table_name {σ} (gw : Gateway σ)
    (table_name table_name' column_name : string) (row_id : value) (st : σ) :
  get_attachment_url gw table_name column_name row_id st
  = get_attachment_url gw table_name' column_name row_id st.
Proof. reflexivity. Qed.

(** ** Predicate delete *)

Lemma row_match_spec (table_data : snapshot) (where_ : record) (i : nat) :
  row_match table_data where_ i = true ↔ row_satisfies py_equal table_data where_ i.
Proof.
  unfold row_match, row_satisfies. rewrite forallb_forall. split.
  - intros Hall col val Hwhere.
    specialize (Hall (col, val)). simpl in Hall.
    destruct (table_data !! col) as [cells|] eqn:Hcol.
    + destruct (cells !! i) as [cell|] eqn:Hcell.
      * exists cells, cell. split_and!; [done..|].
        apply py_eq_spec. unfold py_ne in Hall.
        destruct (py_eq cell val); [done|].
        simpl in Hall. discriminate Hall.
        apply list_elem_of_In, elem_of_map_to_list, Hwhere.
      * discriminate Hall. apply list_elem_of_In, elem_of_map_to_list, Hwhere.
    + discriminate Hall. apply list_elem_of_In, elem_of_map_to_list, Hwhere.
  - intros Hsat [col val] Hin.
    apply list_elem_of_In, elem_of_map_to_list in Hin.
    destruct (Hsat col val Hin) as (cells & cell & -> & -> & Heq).
    apply py_eq_spec in Heq. unfold py_ne. by rewrite Heq.
Qed.

Lemma scan_rows_enumerate (table_data : snapshot) (where_ : record) k (ids : list value) :
  scan_rows table_data where_ k ids
  = snd <$> filter (λ p, row_match table_data where_ p.1 = true)
                   (imap (λ i row_id, (k + i, row_id)) ids).
Proof.
  revert k. induction ids as [|row_id rest IH]; intros k; [reflexivity|].
  simpl. rewrite filter_cons. simpl. rewrite Nat.add_0_r.
  rewrite (imap_ext _ (λ i row_id, (S k + i, row_id))) by (intros; simpl; f_equal; lia).
  rewrite IH. destruct (row_match table_data where_ k) eqn:Hm.
  - rewrite decide_True by done. reflexivity.
  - rewrite decide_False by done. reflexivity.
Qed.

Lemma scan_rows_all (table_data : snapshot) k (ids : list value) :
  scan_rows table_data ∅ k ids = ids.
Proof.
  revert k. induction ids as [|row_id rest IH]; intros k; [reflexivity|].
  simpl. unfold row_match at 1. rewrite map_to_list_empty. simpl. by rewrite IH.
Qed.

Section predicate_delete_facts.
Context {σ : Type} (gw : Gateway σ).

(** Once the snapshot is fetched, [bulk_delete_where] either stops with
    [True], or issues the one [destroy] for the matching ids. *)
Lemma bulk_delete_where_run table_name where_ st snap st1 :
  gw_fetch_table gw table_name st = (Ok snap, st1) →
  bulk_delete_where gw table_name where_ st =
  match matching_row_ids snap where_ with
  | [] => (Ok true, st1, [EFetchTable table_name (Ok snap)])
  | row_ids =>
      let '(r, st2) := gw_destroy gw table_name row_ids st1 in
      (Ok (is_ok r), st2,
       [EFetchTable table_name (Ok snap); EDestroy table_name row_ids r])
  end.
Proof.
  intros Hfetch. unfold bulk_delete_where, delete_data. unfold_service.
  rewrite Hfetch. destruct (matching_row_ids snap where_) as [|row_id rest]; [reflexivity|].
  destruct (gw_destroy gw table_name (row_id :: rest) st1) as [[[]|] st2]; reflexivity.
Qed.

End predicate_delete_facts.

(** C2, as the code has it: a row matches if and only if every criterion
    column is in the snapshot, has a cell at the row's index, and that cell
    equals the wanted value under Python's [==]: [None] matches [None], a
    string matches the same string, and numbers (booleans counted as 0 and
    1, integers, floats) match when they stand for the same number, NaN
    matching nothing, itself included.  The matching identifiers are
    collected in row order; with no match the operation returns [True]
    after the fetch alone, and otherwise issues one [destroy] for the
    collected identifiers. *)
Theorem bulk_delete_where_matches_by_eq {σ} (gw : Gateway σ)
    (table_name : string) (where_ : record) (st : σ) (snap : snapshot) (st1 : σ) :
  gw_fetch_table gw table_name st = (Ok snap, st1) →
  (∀ i, row_match snap where_ i = true ↔ row_satisfies py_equal snap where_ i) ∧
  matching_row_ids snap where_
  = (snd <$> filter (λ p, row_match snap where_ p.1 = true)
                   (enumerate (default [] (snap !! "id")))) ∧
  bulk_delete_where gw table_name where_ st =
  match matching_row_ids snap where_ with
  | [] => (Ok true, st1, [EFetchTable table_name (Ok snap)])
  | row_ids =>
      let '(r, st2) := gw_destroy gw table_name row_ids st1 in
      (Ok (is_ok r), st2,
       [EFetchTable table_name (Ok snap); EDestroy table_name row_ids r])
  end.
Proof.
  intros Hfetch. split_and!.
  - intros i. apply row_match_spec.
  - unfold matching_row_ids, enumerate. apply scan_rows_enumerate.
  - by apply bulk_delete_where_run.
Qed.

Lemma bulk_delete_where_matches_by_eq_witness :
  matching_row_ids tasks_snapshot {[ "title" := VStr "read" ]} = [VInt 8] ∧
  matching_row_ids readings_snapshot {[ "level" := VInt 1 ]} = [VInt 1] ∧
  matching_row_ids readings_snapshot {[ "level" := VFloat S754_nan ]} = [] ∧
  bulk_delete_where mem_gateway "Tasks" {[ "title" := VStr "absent" ]} demo_store
  = (Ok true, demo_store, [EFetchTable "Tasks" (Ok tasks_snapshot)]).
Proof.
  split_and!; [by vm_compute..|].
  destruct (bulk_delete_where_matches_by_eq mem_gateway "Tasks"
              {[ "title" := VStr "absent" ]} demo_store tasks_snapshot demo_store)
    as (_ & _ & Hrun); [reflexivity|].
  exact Hrun.
Defined.

(** C2, as stated, fails: with the criterion [done = True], row 0 of the
    task list, whose [done] cell is the integer 1, is collected and
    destroyed, although its cell is not the wanted value. *)
Lemma bulk_delete_where_bool_matches_int :
  ¬ (row_match tasks_snapshot {[ "done" := VBool true ]} 0 = true ↔
     row_satisfies eq tasks_snapshot {[ "done" := VBool true ]} 0) ∧
  ∃ st',
    bulk_delete_where mem_gateway "Tasks" {[ "done" := VBool true ]} demo_store
    = (Ok true, st',
       [EFetchTable "Tasks" (Ok tasks_snapshot); EDestroy "Tasks" [VInt 7] (Ok ())]).
Proof.
  split.
  - intros [Hexact _].
    destruct (Hexact eq_refl "done" (VBool true)) as (cells & cell & Hcol & Hcell & ->).
    { apply lookup_singleton_eq. }
    assert (cells = [VInt 1; VInt 0]) as -> by (vm_compute in Hcol; congruence).
    discriminate Hcell.
  - eexists. vm_compute. reflexivity.
Qed.

(** C9: for every table whose snapshot has at least one row, the empty
    criteria mapping matches every row, and [bulk_delete_where] issues one
    [destroy] for all the identifiers of the id column, in order. *)
Theorem bulk_delete_where_empty_predicate {σ} (gw : Gateway σ)
    (table_name : string) (st : σ) (snap : snapshot) (st1 : σ)
    (row_id : value) (row_ids : list value) :
  gw_fetch_table gw table_name st = (Ok snap, st1) →
  snap !! "id" = Some (row_id :: row_ids) →
  (∀ i, row_match snap ∅ i = true) ∧
  bulk_delete_where gw table_name ∅ st =
  let '(r, st2) := gw_destroy gw table_name (row_id :: row_ids) st1 in
  (Ok (is_ok r), st2,
   [EFetchTable table_name (Ok snap); EDestroy table_name (row_id :: row_ids) r]).
Proof.
  intros Hfetch Hid. split.
  - intros i. unfold row_match. by rewrite map_to_list_empty.
  - rewrite (bulk_delete_where_run gw _ _ _ _ _ Hfetch).
    unfold matching_row_ids. rewrite Hid. simpl. rewrite scan_rows_all.
    unfold row_match. rewrite map_to_list_empty. reflexivity.
Qed.

Lemma bulk_delete_where_empty_predicate_witness :
  ∃ st',
    bulk_delete_where mem_gateway "Tasks" ∅ demo_store
    = (Ok true, st',
       [EFetchTable "Tasks" (Ok tasks_snapshot); EDestroy "Tasks" [VInt 7; VInt 8] (Ok ())]).
Proof.
  destruct (bulk_delete_where_empty_predicate mem_gateway "Tasks" demo_store
              tasks_snapshot demo_store (VInt 7) [VInt 8]) as [_ Hrun];
    [reflexivity..|].
  rewrite Hrun. eexists. reflexivity.
Defined.

(** ** Strict merge *)

Section strict_merge_facts.
Context {σ : Type} (gw : Gateway σ).

(** Fetching issues no write. *)
Lemma fetch_each_log tables st r st1 tr1 :
  fetch_each gw tables st = (r, st1, tr1) → Forall (λ e, is_write e = false) tr1.
Proof.
  revert st r st1 tr1. induction tables as [|table rest IH]; intros st r st1 tr1; simpl.
  - intros [= _ _ <-]. constructor.
  - rewrite run_bind. unfold fetch_table at 1.
    destruct (gw_fetch_table gw table st) as [[snap|] st0].
    + rewrite run_bind.
      destruct (fetch_each gw rest st0) as [[[snaps|] st2] tr2] eqn:Hrest.
      * intros [= _ _ <-]. simpl. constructor; [done|].
        rewrite app_nil_r. by eapply IH.
      * intros [= _ _ <-]. simpl. constructor; [done|]. by eapply IH.
    + intros [= _ _ <-]. by repeat constructor.
Qed.

(** The first loop of the strict merge fetches every source in turn and
    folds the intersection over their snapshots. *)
Lemma find_common_cols_fetch_each sources common_cols st snaps st1 tr1 :
  fetch_each gw sources st = (Ok snaps, st1, tr1) →
  find_common_cols gw sources common_cols st
  = (Ok (foldl intersect_columns common_cols snaps), st1, tr1).
Proof.
  revert common_cols st snaps st1 tr1.
  induction sources as [|src rest IH]; intros common_cols st snaps st1 tr1; simpl.
  - intros [= <- <- <-]. reflexivity.
  - rewrite !run_bind. unfold fetch_table at 1 2.
    destruct (gw_fetch_table gw src st) as [[snap|] st0]; [|discriminate].
    rewrite run_bind.
    destruct (fetch_each gw rest st0) as [[[snaps'|] st2] tr2] eqn:Hrest; [|discriminate].
    intros [= <- <- <-]. simpl.
    rewrite (IH _ _ _ _ _ Hrest). simpl. by rewrite app_nil_r.
Qed.

End strict_merge_facts.

Lemma foldl_intersect_columns_Some (cols : gset string) (snaps : list snapshot) :
  ∃ cols',
    foldl intersect_columns (Some cols) snaps = Some cols' ∧
    ∀ col, col ∈ cols' ↔
           col ∈ cols ∧ Forall (λ snap, col ∈ non_system_columns snap) snaps.
Proof.
  revert cols. induction snaps as [|snap rest IH]; intros cols; simpl.
  - exists cols. split; [done|]. intros col. split; [by auto|]. by intros [? _].
  - destruct (IH (cols ∩ non_system_columns snap)) as (cols' & Hfold & Hcols').
    exists cols'. split; [exact Hfold|]. intros col. rewrite Hcols', Forall_cons, elem_of_intersection. tauto.
Qed.

(** What the intersection loop leaves for a non-empty list of snapshots. *)
Lemma foldl_intersect_columns_None (snap : snapshot) (snaps : list snapshot) :
  ∃ cols',
    foldl intersect_columns None (snap :: snaps) = Some cols' ∧
    ∀ col, col ∈ cols' ↔ Forall (λ s, col ∈ non_system_columns s) (snap :: snaps).
Proof.
  destruct (foldl_intersect_columns_Some (non_system_columns snap) snaps)
    as (cols' & Hfold & Hcols').
  exists cols'. split; [exact Hfold|]. intros col. by rewrite Hcols', Forall_cons.
Qed.

(** C3: when the sources are fetched without error and no column other
    than the system columns is present in every one of their snapshots,
    [merge_tables_strict] returns [False] having issued nothing but those
    fetches: no record is created, no table is created, nothing is
    destroyed or updated. *)
Theorem merge_tables_strict_no_common_columns {σ} (gw : Gateway σ)
    (sources : list string) (target : option string) (create_new : bool)
    (st : σ) (snaps : list snapshot) (st1 : σ) (tr1 : list event) :
  fetch_each gw sources st = (Ok snaps, st1, tr1) →
  (∀ col, ¬ Forall (λ snap, col ∈ non_system_columns snap) snaps) →
  merge_tables_strict gw sources target create_new st = (Ok false, st1, tr1) ∧
  Forall (λ e, is_write e = false) tr1.
Proof.
  intros Hfetch Hdisjoint. split; [|by eapply fetch_each_log].
  unfold merge_tables_strict.
  destruct sources as [|first rest].
  - exfalso. simpl in Hfetch. injection Hfetch as <- _ _.
    apply (Hdisjoint ""). constructor.
  - apply run_try_ok. rewrite run_bind.
    rewrite (find_common_cols_fetch_each gw _ None _ _ _ _ Hfetch).
    destruct snaps as [|snap snaps].
    { exfalso. apply (Hdisjoint ""). constructor. }
    destruct (foldl_intersect_columns_None snap snaps) as (cols' & -> & Hcols').
    assert (cols' = ∅) as ->.
    { apply set_eq. intros col. rewrite Hcols'. split; [|set_solver].
      intros Hall. by destruct (Hdisjoint col). }
    rewrite bool_decide_eq_true_2 by done. rewrite run_ret. by rewrite app_nil_r.
Qed.

Lemma merge_tables_strict_no_common_columns_witness :
  merge_tables_strict mem_gateway ["S1"; "Tasks"] (Some "Merged") true demo_store
  = (Ok false, demo_store,
     [EFetchTable "S1" (Ok s1_snapshot); EFetchTable "Tasks" (Ok tasks_snapshot)]).
Proof.
  apply (merge_tables_strict_no_common_columns mem_gateway ["S1"; "Tasks"]
           (Some "Merged") true demo_store [s1_snapshot; tasks_snapshot]).
  - reflexivity.
  - intros col Hall.
    apply Forall_cons in Hall as [H1 Hall]. apply Forall_cons in Hall as [H2 _].
    assert (col ∈ non_system_columns s1_snapshot ∩ non_system_columns tasks_snapshot)
      as Hboth by (by apply elem_of_intersection).
    replace (non_system_columns s1_snapshot ∩ non_system_columns tasks_snapshot)
      with (∅ : gset string) in Hboth by (vm_compute; reflexivity).
    set_solver.
Defined.

(** ** Union merge *)

(** The record of row [i] holds a column exactly when the column is not a
    system column and the source has a cell for it at [i]. *)
Lemma union_record_lookup (src_data : snapshot) (i : nat) (col : string) (v : value) :
  union_record src_data i !! col = Some v ↔
  (col ∉ system_columns) ∧ ∃ cells, src_data !! col = Some cells ∧ cells !! i = Some v.
Proof.
  unfold union_record. rewrite lookup_omap, bind_Some. split.
  - intros (cells & [Hcol Hsys]%map_lookup_filter_Some & Hcell). eauto.
  - intros (Hsys & cells & Hcol & Hcell). exists cells. split; [|done].
    by apply map_lookup_filter_Some.
Qed.

Lemma union_records_length (src_data : snapshot) :
  length (union_records src_data) = row_count src_data.
Proof. unfold union_records. by rewrite length_fmap, length_seq. Qed.



Section union_merge_facts.
Context {σ : Type} (gw : Gateway σ).

Lemma add_if_any_log tgt records st :
  ∃ st' tr,
    add_if_any gw tgt records st = (Ok (), st', tr) ∧
    match records with
    | [] => tr = []
    | _ :: _ => ∃ r, tr = [ECreate tgt records r]
    end.
Proof.
  destruct records as [|rec rest]; simpl.
  - eexists _, _. split; reflexivity.
  - rewrite run_bind.
    destruct (add_data_log gw tgt (rec :: rest) st) as (added & st' & r & ->).
    eexists _, _. split; [reflexivity|]. by exists r.
Qed.

(** The copy loop of the union merge. *)
Lemma copy_loop_log tgt srcs st :
  ∃ r st' tr,
    for_each srcs (λ src,
      src_data ← fetch_table gw src;
      add_if_any gw tgt (union_records src_data)) st = (r, st', tr) ∧
    copy_log tgt srcs (is_ok r) tr.
Proof.
  revert st. induction srcs as [|src rest IH]; intros st; simpl.
  - eexists _, _, _. split; [reflexivity|]. constructor.
  - rewrite !run_bind. unfold fetch_table at 1.
    destruct (gw_fetch_table gw src st) as [[src_data|] st0].
    + destruct (add_if_any_log tgt (union_records src_data) st0) as (st1 & tra & -> & Htra).
      destruct (IH st1) as (r & st2 & trr & -> & Hlog).
      eexists _, _, _. split; [reflexivity|].
      destruct (union_records src_data) as [|rec recs] eqn:Hrecs.
      * subst tra. simpl. apply copy_no_rows; [done|]. exact Hlog.
      * destruct Htra as [r' ->]. simpl. rewrite <- Hrecs.
        apply copy_rows; [by rewrite Hrecs|]. exact Hlog.
    + eexists _, _, _. split; [reflexivity|]. simpl. constructor.
Qed.

(** The schema step of the union merge. *)
Lemma schema_step_log tgt srcs (create_new : bool) st :
  ∃ r st' tr,
    (match create_new, srcs with
     | true, src0 :: _ =>
         first_source_data ← fetch_table gw src0;
         _ ← create_table gw tgt (union_columns first_source_data);
         mret ()
     | _, _ => mret ()
     end : M σ unit) st = (r, st', tr) ∧
    schema_log tgt srcs create_new (is_ok r) tr.
Proof.
  destruct create_new.
  - destruct srcs as [|src0 rest].
    + eexists _, _, _. split; [reflexivity|]. constructor.
    + rewrite run_bind. unfold fetch_table at 1.
      destruct (gw_fetch_table gw src0 st) as [[first_source_data|] st0].
      * rewrite run_bind.
        destruct (create_table_log gw tgt (union_columns first_source_data) st0)
          as (b & st1 & trc & -> & Hlog & _).
        eexists _, _, _. split; [reflexivity|]. simpl. rewrite app_nil_r.
        by constructor.
      * eexists _, _, _. split; [reflexivity|]. simpl. constructor.
  - eexists _, _, _. split; [reflexivity|]. destruct srcs; constructor.
Qed.

End union_merge_facts.

Lemma throwaway_log_allowed tgt cols srcs tr whole e :
  throwaway_log tgt cols tr → e ∈ tr → (∀ e', e' ∈ tr → e' ∈ whole) →
  allowed_event tgt srcs whole e.
Proof.
  intros Hlog He Hsub. destruct Hlog as [row_id ids r| |].
  - apply elem_of_cons in He as [->|He]; [done|].
    apply list_elem_of_singleton in He as ->. simpl. split; [done|].
    exists row_id, ids, cols. split; [done|]. apply Hsub. by left.
  - by apply list_elem_of_singleton in He as ->.
  - by apply list_elem_of_singleton in He as ->.
Qed.

Lemma schema_log_allowed tgt srcs create_new c tr whole e :
  schema_log tgt srcs create_new c tr → e ∈ tr → (∀ e', e' ∈ tr → e' ∈ whole) →
  allowed_event tgt srcs whole e.
Proof.
  intros Hlog He Hsub. destruct Hlog as [srcs| |src0 srcs first_source_data tr Hthrow|src0 srcs].
  - by apply elem_of_nil in He.
  - by apply elem_of_nil in He.
  - apply elem_of_cons in He as [->|He]; [simpl; by left|].
    eapply throwaway_log_allowed; [done..|]. intros e' He'. apply Hsub. by right.
  - apply list_elem_of_singleton in He as ->. simpl. by left.
Qed.

Lemma copy_log_allowed tgt srcs b tr whole e :
  copy_log tgt srcs b tr → e ∈ tr → allowed_event tgt srcs whole e.
Proof.
  intros Hlog. revert e.
  induction Hlog as [|src srcs src_data r b tr Hrecs Hlog IH
                      |src srcs src_data b tr Hrecs Hlog IH|src srcs]; intros e He.
  - by apply elem_of_nil in He.
  - apply elem_of_cons in He as [->|He]; [simpl; by left|].
    apply elem_of_cons in He as [->|He]; [done|].
    specialize (IH e He). destruct e; simpl in *; try done. by right.
  - apply elem_of_cons in He as [->|He]; [simpl; by left|].
    specialize (IH e He). destruct e; simpl in *; try done. by right.
  - apply list_elem_of_singleton in He as ->. simpl. by left.
Qed.




(** * Further properties of the Service *)

(** ** Single-row update and delete *)

(** X1: [update_table] issues one [update] of a single record and answers
    [True] exactly when it returned.  The record carries the fields of
    [updates]; its [id] is [row_id] unless [updates] has an [id] of its own,
    which then replaces [row_id]. *)
Theorem update_table_record {σ} (gw : Gateway σ)
    (table_name : string) (row_id : value) (updates : record) (st : σ) :
  ∃ rec : record,
    (let '(r, st') := gw_update gw table_name [rec] st in
     update_table gw table_name row_id updates st
     = (Ok (is_ok r), st', [EUpdate table_name [rec] r])) ∧
    rec !! "id" = Some (default row_id (updates !! "id")) ∧
    ∀ col, col ≠ "id" → rec !! col = updates !! col.
Proof.
  exists (updates ∪ {[ "id" := row_id ]}). split_and!.
  - unfold update_table. unfold_service.
    destruct (gw_update gw table_name [updates ∪ {[ "id" := row_id ]}] st) as [[[]|] st1];
      reflexivity.
  - rewrite lookup_union. destruct (updates !! "id") as [v|]; simpl.
    + by rewrite union_Some_l.
    + by rewrite lookup_singleton_eq.
  - intros col Hcol. rewrite lookup_union, lookup_singleton_ne by done.
    by destruct (updates !! col).
Qed.

(** X2: [delete_data] with a single row id is [delete_data] with the
    one-element list of it; with a list it issues one [destroy] of that very
    list, the empty list included, and answers [True] exactly when the
    [destroy] returned. *)
Theorem delete_data_destroys_given_ids {σ} (gw : Gateway σ)
    (table_name : string) (row_id : value) (row_ids : list value) (st : σ) :
  delete_data gw table_name (OneRowId row_id) st
  = delete_data gw table_name (RowIdList [row_id]) st ∧
  (let '(r, st') := gw_destroy gw table_name row_ids st in
   delete_data gw table_name (RowIdList row_ids) st
   = (Ok (is_ok r), st', [EDestroy table_name row_ids r])).
Proof.
  split; [reflexivity|].
  unfold delete_data. unfold_service.
  destruct (gw_destroy gw table_name row_ids st) as [[[]|] st1]; reflexivity.
Qed.

(** ** Predicate delete: errors, edges and what is never deleted *)

Lemma scan_rows_sublist (table_data : snapshot) (where_ : record) k (ids : list value) :
  scan_rows table_data where_ k ids `sublist_of` ids.
Proof.
  revert k. induction ids as [|row_id rest IH]; intros k; simpl; [done|].
  destruct (row_match table_data where_ k).
  - by apply sublist_skip.
  - by apply sublist_cons.
Qed.

Lemma row_match_weaken (table_data : snapshot) (where_ where' : record) (i : nat) :
  where_ ⊆ where' →
  row_match table_data where' i = true → row_match table_data where_ i = true.
Proof.
  intros Hsub. rewrite !row_match_spec. intros Hsat col val Hcol.
  apply Hsat. by eapply lookup_weaken.
Qed.

Lemma scan_rows_weaken (table_data : snapshot) (where_ where' : record) k (ids : list value) :
  where_ ⊆ where' →
  scan_rows table_data where' k ids `sublist_of` scan_rows table_data where_ k ids.
Proof.
  intros Hsub. revert k. induction ids as [|row_id rest IH]; intros k; simpl; [done|].
  destruct (row_match table_data where' k) eqn:Hm'.
  - rewrite (row_match_weaken _ _ _ _ Hsub Hm'). by apply sublist_skip.
  - destruct (row_match table_data where_ k); [by apply sublist_cons|done].
Qed.

Lemma scan_rows_no_match (table_data : snapshot) (where_ : record) k (ids : list value) :
  (∀ i, row_match table_data where_ i = false) →
  scan_rows table_data where_ k ids = [].
Proof.
  intros Hno. revert k. induction ids as [|row_id rest IH]; intros k; simpl; [done|].
  by rewrite Hno.
Qed.

(** X3: when the fetch raises, [bulk_delete_where] answers [False] and has
    issued nothing but that fetch. *)
Theorem bulk_delete_where_fetch_fails {σ} (gw : Gateway σ)
    (table_name : string) (where_ : record) (st st1 : σ) :
  gw_fetch_table gw table_name st = (Raise, st1) →
  bulk_delete_where gw table_name where_ st
  = (Ok false, st1, [EFetchTable table_name Raise]).
Proof.
  intros Hfetch. unfold bulk_delete_where. unfold_service. by rewrite Hfetch.
Qed.

Lemma bulk_delete_where_fetch_fails_witness :
  bulk_delete_where mem_gateway "Missing" {[ "title" := VStr "read" ]} demo_store
  = (Ok false, demo_store, [EFetchTable "Missing" Raise]).
Proof. apply bulk_delete_where_fetch_fails. reflexivity. Defined.

(** X4: a criterion on a column the snapshot lacks matches no row, and so
    does any criterion on a snapshot without an [id] column: the operation
    answers [True] after the fetch alone. *)
Theorem bulk_delete_where_unknown_column {σ} (gw : Gateway σ)
    (table_name : string) (where_ : record) (st : σ) (snap : snapshot) (st1 : σ) :
  gw_fetch_table gw table_name st = (Ok snap, st1) →
  snap !! "id" = None ∨ (∃ col, col ∈ dom where_ ∧ col ∉ dom snap) →
  bulk_delete_where gw table_name where_ st
  = (Ok true, st1, [EFetchTable table_name (Ok snap)]).
Proof.
  intros Hfetch Hno. rewrite (bulk_delete_where_run gw _ _ _ _ _ Hfetch).
  assert (matching_row_ids snap where_ = []) as ->; [|done].
  unfold matching_row_ids. destruct Hno as [->|(col & [val Hval]%elem_of_dom & Hsnap)].
  - reflexivity.
  - apply scan_rows_no_match. intros i.
    destruct (row_match snap where_ i) eqn:Hm; [|done].
    apply row_match_spec in Hm. destruct (Hm col val Hval) as (cells & _ & Hcol & _).
    exfalso. apply Hsnap. apply elem_of_dom. eauto.
Qed.

Lemma bulk_delete_where_unknown_column_witness :
  bulk_delete_where mem_gateway "Tasks" {[ "owner" := VStr "ann" ]} demo_store
  = (Ok true, demo_store, [EFetchTable "Tasks" (Ok tasks_snapshot)]).
Proof.
  apply bulk_delete_where_unknown_column.
  - reflexivity.
  - right. exists "owner". split.
    + apply elem_of_dom. exists (VStr "ann"). apply lookup_singleton_eq.
    + apply not_elem_of_dom. reflexivity.
Defined.

(** X5: [bulk_delete_where] never raises, never creates or updates, and
    fetches only the table it was given; if it destroys, it does so once, in
    that table, and the identifiers are a non-empty sub-sequence of the id
    column of the snapshot it fetched. *)
Theorem bulk_delete_where_deletes_fetched_ids {σ} (gw : Gateway σ)
    (table_name : string) (where_ : record) (st : σ) :
  ∃ b st' tr,
    bulk_delete_where gw table_name where_ st = (Ok b, st', tr) ∧
    ∃ r, tr = [EFetchTable table_name r] ∨
         ∃ snap row_ids r',
           r = Ok snap ∧
           tr = [EFetchTable table_name r; EDestroy table_name row_ids r'] ∧
           row_ids ≠ [] ∧
           row_ids `sublist_of` default [] (snap !! "id").
Proof.
  destruct (gw_fetch_table gw table_name st) as [[snap|] st1] eqn:Hfetch.
  - rewrite (bulk_delete_where_run gw _ where_ _ _ _ Hfetch).
    pose proof (scan_rows_sublist snap where_ 0 (default [] (snap !! "id"))) as Hsub.
    fold (matching_row_ids snap where_) in Hsub.
    destruct (matching_row_ids snap where_) as [|row_id rest] eqn:Hids.
    + eexists _, _, _. split; [reflexivity|]. exists (Ok snap). by left.
    + simpl. destruct (gw_destroy gw table_name (row_id :: rest) st1) as [r' st2].
      eexists _, _, _. split; [reflexivity|]. exists (Ok snap). right.
      exists snap, (row_id :: rest), r'. done.
  - unfold bulk_delete_where. unfold_service. rewrite Hfetch.
    eexists _, _, _. split; [reflexivity|]. exists Raise. by left.
Qed.

(** X6: adding criteria can only narrow a predicate delete: the
    identifiers matched by a larger criteria mapping are a sub-sequence of
    those matched by a smaller one, and both are sub-sequences of the id
    column. *)
Theorem matching_row_ids_more_criteria (snap : snapshot) (where_ where' : record) :
  where_ ⊆ where' →
  matching_row_ids snap where' `sublist_of` matching_row_ids snap where_ ∧
  matching_row_ids snap where_ `sublist_of` default [] (snap !! "id").
Proof.
  intros Hsub. unfold matching_row_ids. split.
  - by apply scan_rows_weaken.
  - apply scan_rows_sublist.
Qed.

Lemma matching_row_ids_more_criteria_witness :
  matching_row_ids tasks_snapshot {[ "done" := VInt 1; "title" := VStr "read" ]}
    `sublist_of` matching_row_ids tasks_snapshot {[ "title" := VStr "read" ]} ∧
  matching_row_ids tasks_snapshot {[ "title" := VStr "read" ]}
    `sublist_of` default [] (tasks_snapshot !! "id").
Proof.
  apply matching_row_ids_more_criteria.
  apply insert_subseteq. reflexivity.
Defined.

(** ** Union merge: any target *)

Section union_merge_any_target.
Context {σ : Type} (gw : Gateway σ).

(** The log of [merge_tables] for a non-empty source list and any target. *)
Lemma merge_tables_run first rest target create_new st :
  ∃ b st' c tr_schema tr_copy,
    merge_tables gw (first :: rest) target create_new st
    = (Ok b, st', tr_schema ++ tr_copy) ∧
    schema_log (merge_target target first) (merge_sources target (first :: rest))
      create_new c tr_schema ∧
    (if c then copy_log (merge_target target first)
                (merge_sources target (first :: rest)) b tr_copy
     else b = false ∧ tr_copy = []) ∧
    appends_only (merge_target target first) (merge_sources target (first :: rest))
      (tr_schema ++ tr_copy).
Proof.
  set (tgt := merge_target target first).
  set (srcs := merge_sources target (first :: rest)).
  destruct (schema_step_log gw tgt srcs create_new st) as (r1 & st1 & tr1 & Hs & Hslog).
  unfold merge_tables. fold tgt srcs.
  unfold try_except. rewrite run_bind, Hs.
  destruct r1 as [[]|]; simpl in Hslog.
  - destruct (copy_loop_log gw tgt srcs st1) as (r2 & st2 & tr2 & Hc & Hclog).
    rewrite run_bind, Hc.
    assert (appends_only tgt srcs (tr1 ++ tr2)) as Hallowed.
    { intros e [He|He]%elem_of_app.
      - eapply schema_log_allowed; [done..|]. intros e' He'. apply elem_of_app. by left.
      - by eapply copy_log_allowed. }
    destruct r2 as [[]|]; simpl in Hclog.
    + exists true, st2, true, tr1, tr2. simpl. by rewrite app_nil_r.
    + exists false, st2, true, tr1, tr2. simpl. by rewrite app_nil_r.
  - exists false, st1, false, tr1, []. simpl. split_and!; [done..|].
    rewrite app_nil_r. intros e He. by eapply schema_log_allowed.
Qed.

End union_merge_any_target.

(** A schema step ran to its end exactly when its log has no failed fetch. *)
Lemma schema_log_finished tgt srcs create_new c tr :
  schema_log tgt srcs create_new c tr →
  c = true ↔ ∀ src, EFetchTable src Raise ∉ tr.
Proof.
  intros [srcs'| |src0 srcs' first_source_data tr' Hthrow|src0 srcs'].
  - split; [|done]. intros _ src Hin. by apply elem_of_nil in Hin.
  - split; [|done]. intros _ src Hin. by apply elem_of_nil in Hin.
  - split; [|done]. intros _ src [Hin|Hin]%elem_of_cons; [done|].
    destruct Hthrow; repeat (apply elem_of_cons in Hin as [Hin|Hin]; [done|]);
      by apply elem_of_nil in Hin.
  - split; [done|]. intros Hno. destruct (Hno src0). by left.
Qed.

Lemma copy_log_finished tgt srcs b tr :
  copy_log tgt srcs b tr →
  b = true ↔ ∀ src, EFetchTable src Raise ∉ tr.
Proof.
  induction 1 as [|src srcs src_data r b tr Hrecs Hlog IH
                   |src srcs src_data b tr Hrecs Hlog IH|src srcs].
  - split; [|done]. intros _ src Hin. by apply elem_of_nil in Hin.
  - rewrite IH. split.
    + intros Hno src' Hin.
      apply elem_of_cons in Hin as [Hin|Hin]; [done|].
      apply elem_of_cons in Hin as [Hin|Hin]; [done|]. by apply (Hno src').
    + intros Hno src' Hin. apply (Hno src'). by do 2 right.
  - rewrite IH. split.
    + intros Hno src' Hin.
      apply elem_of_cons in Hin as [Hin|Hin]; [done|]. by apply (Hno src').
    + intros Hno src' Hin. apply (Hno src'). by right.
  - split; [done|]. intros Hno. destruct (Hno src). by left.
Qed.

(** X7: with an explicit, non-empty [target], every source is copied, the
    first one too, even if it is the target itself: the log is the schema
    step followed by the copy loop over the whole source list, all writes
    going to [target]. *)
Theorem merge_tables_explicit_target {σ} (gw : Gateway σ)
    (first : string) (rest : list string) (target : string)
    (create_new : bool) (st : σ) :
  target ≠ "" →
  ∃ b st' c tr_schema tr_copy,
    merge_tables gw (first :: rest) (Some target) create_new st
    = (Ok b, st', tr_schema ++ tr_copy) ∧
    schema_log target (first :: rest) create_new c tr_schema ∧
    (if c then copy_log target (first :: rest) b tr_copy
     else b = false ∧ tr_copy = []) ∧
    appends_only target (first :: rest) (tr_schema ++ tr_copy).
Proof.
  intros Htarget.
  assert (target_given (Some target) = true) as Hgiven.
  { simpl. apply negb_true_iff, String.eqb_neq, Htarget. }
  pose proof (merge_tables_run gw first rest (Some target) create_new st) as Hrun.
  unfold merge_target, merge_sources in Hrun. rewrite Hgiven in Hrun. exact Hrun.
Qed.

Lemma merge_tables_explicit_target_witness :
  ∃ st',
    merge_tables mem_gateway ["S1"; "S2"] (Some "S1") false demo_store
    = (Ok true, st',
       [EFetchTable "S1" (Ok s1_snapshot);
        ECreate "S1" (union_records s1_snapshot) (Ok [VInt 10]);
        EFetchTable "S2" (Ok s2_snapshot);
        ECreate "S1" (union_records s2_snapshot) (Ok [VInt 11; VInt 12])]).
Proof.
  destruct (merge_tables_explicit_target mem_gateway "S1" ["S2"] "S1" false demo_store)
    as (b & st' & c & tr1 & tr2 & Hrun & _); [done|].
  remember (tr1 ++ tr2) as tr eqn:Htr. clear Htr.
  exists st'. rewrite Hrun. vm_compute in Hrun.
  injection Hrun as <- <- <-. vm_compute. reflexivity.
Defined.

(** X8: for a non-empty source list, [merge_tables] never raises, and it
    answers [True] exactly when no fetch raised, whatever became of the
    writes: a [create] or [destroy] that raises does not change the
    answer. *)
Theorem merge_tables_true_iff_fetches_return {σ} (gw : Gateway σ)
    (first : string) (rest : list string) (target : option string)
    (create_new : bool) (st : σ) :
  ∃ b st' tr,
    merge_tables gw (first :: rest) target create_new st = (Ok b, st', tr) ∧
    (b = true ↔ ∀ src, EFetchTable src Raise ∉ tr).
Proof.
  destruct (merge_tables_run gw first rest target create_new st)
    as (b & st' & c & tr1 & tr2 & Hrun & Hs & Hc & _).
  exists b, st', (tr1 ++ tr2). split; [done|].
  apply schema_log_finished in Hs. destruct c.
  - apply copy_log_finished in Hc. rewrite Hc. split.
    + intros Hno src [Hin|Hin]%elem_of_app; [|by apply (Hno src)].
      by apply (proj1 Hs eq_refl src).
    + intros Hno src Hin. apply (Hno src), elem_of_app. by right.
  - destruct Hc as [-> ->]. split; [done|]. intros Hno. apply Hs.
    intros src Hin. apply (Hno src), elem_of_app. by left.
Qed.

(** On a Gateway that refuses every write the merge still answers [True]. *)
Example merge_tables_read_only :
  merge_tables read_only_gateway ["S1"; "S2"] None true demo_store
  = (Ok true, demo_store,
     [EFetchTable "S2" (Ok s2_snapshot);
      ECreate "S1" [dummy_record (union_columns s2_snapshot)] Raise;
      EFetchTable "S2" (Ok s2_snapshot);
      ECreate "S1" (union_records s2_snapshot) Raise]).
Proof. vm_compute. reflexivity. Qed.

(** X9: an empty-string [target] is the same as no target, for both merge
    variants. *)
Theorem merge_empty_string_target {σ} (gw : Gateway σ)
    (sources : list string) (create_new : bool) (st : σ) :
  merge_tables gw sources (Some "") create_new st
  = merge_tables gw sources None create_new st ∧
  merge_tables_strict gw sources (Some "") create_new st
  = merge_tables_strict gw sources None create_new st.
Proof. split; reflexivity. Qed.

(** X10: with no source both merge variants answer [False] without any
    request; with a single source and no target the union merge answers
    [True] without any request, [create_new] or not. *)
Theorem merge_nothing_to_copy {σ} (gw : Gateway σ)
    (only : string) (target : option string) (create_new : bool) (st : σ) :
  merge_tables gw [] target create_new st = (Ok false, st, []) ∧
  merge_tables_strict gw [] target create_new st = (Ok false, st, []) ∧
  merge_tables gw [only] None create_new st = (Ok true, st, []).
Proof. split_and!; [reflexivity..|]. by destruct create_new. Qed.

(** ** Type inference for a new target *)

(** X11: the schema the union merge derives for a new target has exactly
    the non-system columns of the first source, each typed from its
    cells. *)
Theorem union_columns_schema (first_source_data : snapshot) :
  dom (union_columns first_source_data) = non_system_columns first_source_data ∧
  ∀ col ty,
    union_columns first_source_data !! col = Some ty ↔
    (col ∉ system_columns) ∧
    ∃ cells, first_source_data !! col = Some cells ∧ ty = sample_column_type cells.
Proof.
  assert (∀ col ty,
    union_columns first_source_data !! col = Some ty ↔
    (col ∉ system_columns) ∧
    ∃ cells, first_source_data !! col = Some cells ∧ ty = sample_column_type cells)
    as Hlookup.
  { intros col ty. unfold union_columns. rewrite lookup_fmap, fmap_Some. split.
    - intros (cells & [Hcol Hsys]%map_lookup_filter_Some & ->). eauto.
    - intros (Hsys & cells & Hcol & ->). exists cells. split; [|done].
      by apply map_lookup_filter_Some. }
  split; [|exact Hlookup].
  apply set_eq. intros col. unfold non_system_columns.
  rewrite elem_of_difference, !elem_of_dom. split.
  - intros [ty (Hsys & cells & Hcol & _)%Hlookup]. by rewrite Hcol.
  - intros [[cells Hcol] Hsys]. exists (sample_column_type cells).
    apply Hlookup. eauto.
Qed.

Lemma first_non_none_skip (nones : nat) (cells : list value) :
  first_non_none (replicate nones VNone ++ cells) = first_non_none cells.
Proof.
  unfold first_non_none. induction nones as [|n IH]; [done|]. simpl.
  by rewrite filter_cons_False by (by intros []).
Qed.

(** X12: the type of a column is decided by its first cell that is not
    [None]: [Bool] for a boolean, [Numeric] for an integer or a float,
    [Text] for a string; a column with no such cell is [Text]. *)
Theorem sample_column_type_first_value (nones : nat) (v : value) (rest : list value) :
  v ≠ VNone →
  sample_column_type (replicate nones VNone ++ v :: rest)
  = match v with
    | VBool _ => "Bool"
    | VInt _ | VFloat _ => "Numeric"
    | VStr _ | VNone => "Text"
    end ∧
  sample_column_type (replicate nones VNone) = "Text".
Proof.
  intros Hv. unfold sample_column_type. split.
  - rewrite first_non_none_skip. unfold first_non_none.
    rewrite filter_cons_True by done. simpl. by destruct v.
  - rewrite <- (app_nil_r (replicate nones VNone)), first_non_none_skip. reflexivity.
Qed.

Lemma sample_column_type_first_value_witness :
  sample_column_type ([VNone; VNone] ++ VBool false :: [VStr "x"]) = "Bool" ∧
  sample_column_type [VNone; VNone] = "Text".
Proof. by apply (sample_column_type_first_value 2 (VBool false) [VStr "x"]). Defined.

(** ** Table creation without the Gateway's contract *)

(** [create_table] answers [True] exactly when no request raised. *)
Lemma create_table_run {σ} (gw : Gateway σ)
    (table_name : string) (columns : gmap string string) (st : σ) :
  ∃ b st' tr,
    create_table gw table_name columns st = (Ok b, st', tr) ∧
    throwaway_log table_name columns tr ∧
    (b = true ↔ Forall (λ e, event_failed e = false) tr).
Proof.
  unfold create_table. unfold_service.
  destruct (gw_create gw table_name [dummy_record columns] st) as [[ids|] st1] eqn:Hc.
  - destruct ids as [|row_id ids].
    + eexists _, _, _. split; [reflexivity|]. split; [constructor|].
      split; [|done]. intros _. by repeat constructor.
    + destruct (gw_destroy gw table_name [row_id] st1) as [[[]|] st2] eqn:Hd.
      * eexists _, _, _. split; [reflexivity|]. split; [constructor|].
        split; [|done]. intros _. by repeat constructor.
      * eexists _, _, _. split; [reflexivity|]. split; [constructor|].
        split; [done|]. intros Hall.
        apply Forall_cons in Hall as [_ Hall]. by apply Forall_cons in Hall as [? _].
  - eexists _, _, _. split; [reflexivity|]. split; [constructor|].
    split; [done|]. intros Hall. by apply Forall_cons in Hall as [? _].
Qed.

(** X13: [create_table] never raises and its log is that of a throwaway
    row; it answers [True] exactly when no request raised.  So it also
    answers [True], without any [destroy], when the Gateway returns no
    identifier for the throwaway row. *)
Theorem create_table_answer {σ} (gw : Gateway σ)
    (table_name : string) (columns : gmap string string) (st : σ) :
  ∃ b st' tr,
    create_table gw table_name columns st = (Ok b, st', tr) ∧
    throwaway_log table_name columns tr ∧
    (b = true ↔ Forall (λ e, event_failed e = false) tr).
Proof. apply create_table_run. Qed.

(** ** Attachments *)

(** X14: [get_attachment_url] never raises and issues the one request
    [fetch_selected_record]; its answer is the [url] member of the structure
    held in the wanted field, and [None] in every other case: request
    failed, no record, no such field, field not a structure, structure
    without [url]. *)
Theorem get_attachment_url_answer {σ} (gw : Gateway σ)
    (table_name column_name : string) (row_id : value) (st : σ) :
  let '(r, st') := gw_fetch_selected_record gw row_id st in
  get_attachment_url gw table_name column_name row_id st
  = (Ok (attachment_url r column_name), st', [EFetchSelected row_id r]).
Proof.
  unfold get_attachment_url. unfold_service.
  destruct (gw_fetch_selected_record gw row_id st) as [[[rec|]|] st1]; simpl; [|done..].
  destruct (rec !! column_name) as [[v|members]|]; simpl; [| |done].
  - by destruct (truthy v).
  - destruct (bool_decide (members = ∅)) eqn:Hempty; simpl; [|done].
    apply bool_decide_eq_true in Hempty as ->. by rewrite lookup_empty.
Qed.

(** ** Strict merge: records, schema and log *)

(** The loop of [strict_record] over any list of columns. *)
Lemma strict_record_fold (cols : list string) (src_data : snapshot) (i : nat) :
  match foldr (λ col acc,
                 rec ← acc;
                 cells ← src_data !! col;
                 Some (match cells !! i with
                       | Some v => <[col := v]> rec
                       | None => rec
                       end))
              (Some (∅ : record)) cols with
  | Some rec =>
      (∀ col, col ∈ cols → is_Some (src_data !! col)) ∧
      ∀ col v, rec !! col = Some v ↔
               col ∈ cols ∧ ∃ cells, src_data !! col = Some cells ∧ cells !! i = Some v
  | None => ∃ col, col ∈ cols ∧ src_data !! col = None
  end.
Proof.
  induction cols as [|col0 cols IH]; simpl.
  - split.
    + intros col Hin. by apply elem_of_nil in Hin.
    + intros col v. rewrite lookup_empty. split; [done|].
      intros [Hin _]. by apply elem_of_nil in Hin.
  - destruct (foldr _ _ cols) as [rec|]; simpl.
    + destruct IH as [Hall Hrec].
      destruct (src_data !! col0) as [cells0|] eqn:Hcol0; simpl.
      * split.
        { intros col [->|Hin]%elem_of_cons; [by rewrite Hcol0|by apply Hall]. }
        intros col v. destruct (cells0 !! i) as [v0|] eqn:Hcell0.
        -- destruct (decide (col = col0)) as [->|Hne].
           ++ rewrite lookup_insert_eq. split.
              ** intros [= <-]. split; [by left|]. eauto.
              ** intros (_ & cells & Hcol & Hcell). congruence.
           ++ rewrite lookup_insert_ne by done. rewrite Hrec. split.
              ** intros [Hin Hrest]. split; [by right|done].
              ** intros [[?|Hin]%elem_of_cons Hrest]; [done|]. done.
        -- rewrite Hrec. split.
           ++ intros [Hin Hrest]. split; [by right|done].
           ++ intros [[->|Hin]%elem_of_cons (cells & Hcol & Hcell)]; [congruence|].
              split; [done|]. eauto.
      * exists col0. split; [by left|done].
    + destruct IH as (col & Hin & Hcol). exists col. split; [by right|done].
Qed.

Lemma strict_record_Some (common_cols : gset string) (src_data : snapshot) (i : nat)
    (rec : record) :
  strict_record common_cols src_data i = Some rec →
  common_cols ⊆ dom src_data ∧
  ∀ col v, rec !! col = Some v ↔
           col ∈ common_cols ∧
           ∃ cells, src_data !! col = Some cells ∧ cells !! i = Some v.
Proof.
  unfold strict_record. intros Hrec.
  pose proof (strict_record_fold (elements common_cols) src_data i) as Hfold.
  rewrite Hrec in Hfold. destruct Hfold as [Hall Hlookup]. split.
  - intros col Hin. apply elem_of_dom, Hall, elem_of_elements, Hin.
  - intros col v. rewrite Hlookup. by rewrite elem_of_elements.
Qed.

Lemma strict_record_None (common_cols : gset string) (src_data : snapshot) (i : nat) :
  strict_record common_cols src_data i = None →
  ∃ col, col ∈ common_cols ∧ col ∉ dom src_data.
Proof.
  unfold strict_record. intros Hrec.
  pose proof (strict_record_fold (elements common_cols) src_data i) as Hfold.
  rewrite Hrec in Hfold. destruct Hfold as (col & Hin & Hcol).
  exists col. split; [by apply elem_of_elements|by apply not_elem_of_dom].
Qed.

(** X15: the records of the strict merge.  If the snapshot has rows and
    lacks a common column, building them fails; otherwise there is one
    record per row, and the record of row [i] holds a column exactly when it
    is a common column with a cell at [i]. *)
Theorem strict_records_content (common_cols : gset string) (src_data : snapshot) :
  match strict_records common_cols src_data with
  | Some records =>
      length records = row_count src_data ∧
      (0 < row_count src_data → common_cols ⊆ dom src_data) ∧
      ∀ i rec, records !! i = Some rec →
        ∀ col v, rec !! col = Some v ↔
                 col ∈ common_cols ∧
                 ∃ cells, src_data !! col = Some cells ∧ cells !! i = Some v
  | None =>
      0 < row_count src_data ∧ ∃ col, col ∈ common_cols ∧ col ∉ dom src_data
  end.
Proof.
  unfold strict_records.
  destruct (mapM _ _) as [records|] eqn:Hrecords.
  - apply mapM_Some in Hrecords.
    pose proof (Forall2_length _ _ _ Hrecords) as Hlen. rewrite length_seq in Hlen.
    split_and!.
    + done.
    + intros Hrows.
      destruct (Forall2_lookup_l _ _ _ 0 0 Hrecords) as (rec & _ & Hrec).
      { by apply lookup_seq. }
      by apply strict_record_Some in Hrec as [? _].
    + intros i rec Hi.
      destruct (Forall2_lookup_r _ _ _ i rec Hrecords Hi) as (j & [-> _]%lookup_seq & Hrec).
      by apply strict_record_Some in Hrec as [_ ?].
  - destruct (row_count src_data) as [|n] eqn:Hrows; [done|].
    split; [lia|].
    apply eq_None_not_Some in Hrecords.
    rewrite mapM_is_Some, Forall_forall in Hrecords.
    destruct (decide (common_cols ⊆ dom src_data)) as [Hsub|Hsub].
    + exfalso. apply Hrecords. intros i _. simpl.
      destruct (strict_record common_cols src_data i) eqn:Hrec; [done|].
      apply strict_record_None in Hrec as (col & Hin & Hout). destruct (Hout (Hsub col Hin)).
    + destruct (strict_record common_cols src_data 0) as [rec|] eqn:Hrec.
      * by apply strict_record_Some in Hrec as [? _].
      * by apply strict_record_None in Hrec.
Qed.

Lemma strict_records_content_witness :
  ∃ records,
    strict_records {[ "x" ]} s2_snapshot = Some records ∧
    length records = 2 ∧
    records !! 1 = Some ({[ "x" := VStr "c" ]} : record).
Proof.
  pose proof (strict_records_content {[ "x" ]} s2_snapshot) as Hcontent.
  destruct (strict_records {[ "x" ]} s2_snapshot) as [records|] eqn:Hrecords.
  - exists records. destruct Hcontent as (Hlen & _ & _).
    split_and!; [done|by rewrite Hlen|].
    vm_compute in Hrecords. by injection Hrecords as <-.
  - vm_compute in Hrecords. discriminate Hrecords.
Defined.

(** X16: over common columns that are not system columns, the record the
    strict merge copies for a row is the record the union merge copies for
    it, cut down to the common columns. *)
Theorem strict_record_restricts_union_record (common_cols : gset string)
    (src_data : snapshot) (i : nat) (rec : record) :
  common_cols ## system_columns →
  strict_record common_cols src_data i = Some rec →
  rec = filter (λ kv, kv.1 ∈ common_cols) (union_record src_data i).
Proof.
  intros Hdisjoint [_ Hlookup]%strict_record_Some.
  apply map_eq. intros col. apply option_eq. intros v.
  rewrite Hlookup, map_lookup_filter_Some, union_record_lookup. simpl. split.
  - intros [Hin Hcells]. split_and!; [|done..].
    intros Hsys. by apply (Hdisjoint col).
  - intros [(_ & Hcells) Hin]. done.
Qed.

Lemma strict_record_restricts_union_record_witness :
  ({[ "x" := VStr "c" ]} : record)
  = filter (λ kv, kv.1 ∈ ({[ "x" ]} : gset string)) (union_record s2_snapshot 1).
Proof.
  apply (strict_record_restricts_union_record {[ "x" ]} s2_snapshot 1).
  - apply disjoint_singleton_l. unfold system_columns.
    rewrite elem_of_union, !elem_of_singleton. intros [Hin|Hin]; discriminate Hin.
  - reflexivity.
Defined.

Section strict_merge_log.
Context {σ : Type} (gw : Gateway σ).

Lemma find_common_cols_raise sources common_cols st st1 tr1 :
  fetch_each gw sources st = (Raise, st1, tr1) →
  find_common_cols gw sources common_cols st = (Raise, st1, tr1).
Proof.
  revert common_cols st st1 tr1.
  induction sources as [|src rest IH]; intros common_cols st st1 tr1; simpl; [done|].
  rewrite !run_bind. unfold fetch_table at 1 2.
  destruct (gw_fetch_table gw src st) as [[snap|] st0]; [|by intros [= <- <-]].
  rewrite run_bind.
  destruct (fetch_each gw rest st0) as [[[snaps'|] st2] tr2] eqn:Hrest; [done|].
  intros [= <- <-]. by rewrite (IH _ _ _ _ Hrest).
Qed.

(** The schema step of the strict merge. *)
Lemma strict_schema_step_log tgt common_cols first (create_new : bool) st :
  ∃ r st' tr,
    (if create_new then
       first_source_data ← fetch_table gw first;
       cols ← lift_option (strict_columns common_cols first_source_data);
       _ ← create_table gw tgt cols;
       mret ()
     else mret () : M σ unit) st = (r, st', tr) ∧
    strict_schema_log tgt common_cols first create_new (is_ok r) tr.
Proof.
  destruct create_new.
  - rewrite run_bind. unfold fetch_table at 1.
    destruct (gw_fetch_table gw first st) as [[first_source_data|] st0].
    + rewrite run_bind.
      destruct (strict_columns common_cols first_source_data) as [cols|] eqn:Hcols; simpl.
      * rewrite run_bind.
        destruct (create_table_log gw tgt cols st0) as (b & st1 & trc & -> & Hlog & _).
        eexists _, _, _. split; [reflexivity|]. simpl. rewrite app_nil_r.
        by eapply strict_schema_created.
      * eexists _, _, _. split; [reflexivity|]. simpl.
        by apply strict_schema_missing_column.
    + eexists _, _, _. split; [reflexivity|]. simpl. constructor.
  - eexists _, _, _. split; [reflexivity|]. constructor.
Qed.

(** The copy loop of the strict merge. *)
Lemma strict_copy_loop_log tgt common_cols srcs st :
  ∃ r st' tr,
    for_each srcs (λ src,
      src_data ← fetch_table gw src;
      records ← lift_option (strict_records common_cols src_data);
      add_if_any gw tgt records) st = (r, st', tr) ∧
    strict_copy_log tgt common_cols srcs (is_ok r) tr.
Proof.
  revert st. induction srcs as [|src rest IH]; intros st; simpl.
  - eexists _, _, _. split; [reflexivity|]. constructor.
  - rewrite !run_bind. unfold fetch_table at 1.
    destruct (gw_fetch_table gw src st) as [[src_data|] st0].
    + rewrite run_bind.
      destruct (strict_records common_cols src_data) as [records|] eqn:Hrecords; simpl.
      * destruct (add_if_any_log gw tgt records st0) as (st1 & tra & -> & Htra).
        destruct (IH st1) as (r & st2 & trr & -> & Hlog).
        eexists _, _, _. split; [reflexivity|].
        destruct records as [|rec records].
        -- subst tra. simpl. by apply strict_copy_no_rows.
        -- destruct Htra as [r' ->]. simpl. by apply strict_copy_rows.
      * eexists _, _, _. split; [reflexivity|]. simpl.
        by apply strict_copy_missing_column.
    + eexists _, _, _. split; [reflexivity|]. simpl. constructor.
Qed.

End strict_merge_log.

(** X17: the strict merge, once every source has been fetched for the
    column scan.  The common columns are those present, system columns
    aside, in every snapshot.  If there are none the answer is [False] and
    nothing more is requested.  Otherwise the scan is followed by the schema
    step (for [create_new]: the first source is fetched again and the
    throwaway row over the common columns is created in the target) and by
    the copy loop, which fetches each source to copy in order and creates
    its records over the common columns in the target; the answer is [True]
    exactly when both ran to their end. *)
Theorem merge_tables_strict_log {σ} (gw : Gateway σ)
    (first : string) (rest : list string) (target : option string)
    (create_new : bool) (st : σ) (snaps : list snapshot) (st1 : σ)
    (tr_scan : list event) :
  fetch_each gw (first :: rest) st = (Ok snaps, st1, tr_scan) →
  ∃ common_cols : gset string,
    (∀ col, col ∈ common_cols ↔
            Forall (λ snap, col ∈ non_system_columns snap) snaps) ∧
    ∃ b st' c tr_schema tr_copy,
      merge_tables_strict gw (first :: rest) target create_new st
      = (Ok b, st', tr_scan ++ tr_schema ++ tr_copy) ∧
      if decide (common_cols = ∅)
      then b = false ∧ st' = st1 ∧ tr_schema = [] ∧ tr_copy = []
      else
        strict_schema_log (merge_target target first) common_cols first
          create_new c tr_schema ∧
        (if c then strict_copy_log (merge_target target first) common_cols
                    (merge_sources target (first :: rest)) b tr_copy
         else b = false ∧ tr_copy = []).
Proof.
  intros Hfetch.
  assert (∃ snap snaps', snaps = snap :: snaps') as (snap & snaps' & ->).
  { simpl in Hfetch. rewrite run_bind in Hfetch.
    destruct (fetch_table gw first st) as [[[snap|] st0] tr0]; [|done].
    rewrite run_bind in Hfetch.
    destruct (fetch_each gw rest st0) as [[[snaps'|] st2] tr2]; [|done].
    injection Hfetch as <- _ _. eauto. }
  destruct (foldl_intersect_columns_None snap snaps') as (common_cols & Hfold & Hcommon).
  exists common_cols. split; [exact Hcommon|].
  set (tgt := merge_target target first).
  set (srcs := merge_sources target (first :: rest)).
  unfold merge_tables_strict. fold tgt srcs. unfold try_except.
  rewrite run_bind, (find_common_cols_fetch_each gw _ None _ _ _ _ Hfetch), Hfold.
  destruct (decide (common_cols = ∅)) as [->|Hne].
  - rewrite bool_decide_eq_true_2 by done. rewrite run_ret.
    exists false, st1, true, [], []. by rewrite !app_nil_r.
  - rewrite bool_decide_eq_false_2 by done.
    destruct (strict_schema_step_log gw tgt common_cols first create_new st1)
      as (r1 & st2 & tr1 & Hs & Hslog).
    rewrite run_bind, Hs. destruct r1 as [[]|]; simpl in Hslog.
    + destruct (strict_copy_loop_log gw tgt common_cols srcs st2)
        as (r2 & st3 & tr2 & Hc & Hclog).
      rewrite run_bind, Hc. destruct r2 as [[]|]; simpl in Hclog.
      * exists true, st3, true, tr1, tr2. simpl. by rewrite !app_nil_r.
      * exists false, st3, true, tr1, tr2. simpl. by rewrite !app_nil_r.
    + exists false, st2, false, tr1, []. simpl. by rewrite !app_nil_r.
Qed.

Lemma merge_tables_strict_log_witness :
  ∃ st',
    merge_tables_strict mem_gateway ["S1"; "S2"] None false demo_store
    = (Ok true, st',
       [EFetchTable "S1" (Ok s1_snapshot); EFetchTable "S2" (Ok s2_snapshot);
        EFetchTable "S2" (Ok s2_snapshot);
        ECreate "S1" [{[ "x" := VStr "b" ]}; {[ "x" := VStr "c" ]}]
          (Ok [VInt 10; VInt 11])]).
Proof.
  destruct (merge_tables_strict_log mem_gateway "S1" ["S2"] None false demo_store
              [s1_snapshot; s2_snapshot] demo_store
              [EFetchTable "S1" (Ok s1_snapshot); EFetchTable "S2" (Ok s2_snapshot)])
    as (common_cols & _ & b & st' & c & tr1 & tr2 & Hrun & _); [reflexivity|].
  remember (tr1 ++ tr2) as tr eqn:Htr. clear Htr.
  exists st'. rewrite Hrun. vm_compute in Hrun.
  injection Hrun as <- <- <-. vm_compute. reflexivity.
Defined.

(** X18: when a fetch of the column scan raises, the strict merge answers
    [False] having issued nothing but the fetches up to that one. *)
Theorem merge_tables_strict_scan_fails {σ} (gw : Gateway σ)
    (sources : list string) (target : option string) (create_new : bool)
    (st st1 : σ) (tr_scan : list event) :
  fetch_each gw sources st = (Raise, st1, tr_scan) →
  merge_tables_strict gw sources target create_new st = (Ok false, st1, tr_scan) ∧
  reads_only tr_scan.
Proof.
  intros Hfetch. split; [|by eapply fetch_each_log].
  destruct sources as [|first rest]; [done|].
  unfold merge_tables_strict, try_except.
  rewrite run_bind, (find_common_cols_raise gw _ None _ _ _ Hfetch).
  rewrite run_ret. by rewrite app_nil_r.
Qed.

Lemma merge_tables_strict_scan_fails_witness :
  merge_tables_strict mem_gateway ["S1"; "Missing"; "S2"] (Some "Merged") true demo_store
  = (Ok false, demo_store,
     [EFetchTable "S1" (Ok s1_snapshot); EFetchTable "Missing" Raise]).
Proof.
  apply (merge_tables_strict_scan_fails mem_gateway ["S1"; "Missing"; "S2"]).
  reflexivity.
Defined.

(** ** Every handler answers a value *)

Lemma try_except_never_raises {σ A} (body : M σ A) (a : A) :
  never_raises (try_except body (mret a)).
Proof.
  intros st. unfold try_except.
  destruct (body st) as [[[a'|] st1] tr1]; eauto.
Qed.

Section never_raises_facts.
Context {σ : Type} (gw : Gateway σ).

Lemma merge_tables_never_raises sources target create_new :
  never_raises (merge_tables gw sources target create_new).
Proof. apply try_except_never_raises. Qed.

Lemma merge_tables_strict_never_raises sources target create_new :
  never_raises (merge_tables_strict gw sources target create_new).
Proof. apply try_except_never_raises. Qed.

End never_raises_facts.

(** ** The facade's single-row operations *)

(** X20: the facade's single-row methods each issue exactly one Gateway
    request, on a one-element list, and agree with the bulk method given
    that one-element list.  [add_record] and [add_records] issue the
    [create] of the one record and answer its identifiers, or [None] if it
    raised; [delete_record] and [bulk_delete_records] issue the [destroy] of
    the one identifier and answer whether it returned; [update_record] and
    [bulk_update_records] issue the same [update], the record being
    [updates] with [id] set to [record_id] unless [updates] has its own, and
    the bulk answer is the one-element list of the single answer. *)
Theorem facade_single_row_operations {σ} (gw : Gateway σ)
    (table_name : string) (rec : record) (record_id : value) (updates : record)
    (st : σ) :
  (let '(r, st') := gw_create gw table_name [rec] st in
   KeywardApi.add_record gw table_name rec st
   = (Ok match r with Ok ids => Some ids | Raise => None end, st',
      [ECreate table_name [rec] r]) ∧
   KeywardApi.add_records gw table_name [rec] st
   = KeywardApi.add_record gw table_name rec st) ∧
  (let '(r, st') := gw_destroy gw table_name [record_id] st in
   KeywardApi.delete_record gw table_name record_id st
   = (Ok (is_ok r), st', [EDestroy table_name [record_id] r]) ∧
   KeywardApi.bulk_delete_records gw table_name [record_id] st
   = KeywardApi.delete_record gw table_name record_id st) ∧
  (let row := updates ∪ {[ "id" := record_id ]} in
   let '(r, st') := gw_update gw table_name [row] st in
   KeywardApi.update_record gw table_name record_id updates st
   = (Ok (is_ok r), st', [EUpdate table_name [row] r]) ∧
   KeywardApi.bulk_update_records gw table_name [row] st
   = (Ok [is_ok r], st', [EUpdate table_name [row] r])).
Proof.
  unfold KeywardApi.add_record, KeywardApi.add_records, KeywardApi.delete_record,
    KeywardApi.bulk_delete_records, KeywardApi.update_record,
    KeywardApi.bulk_update_records.
  unfold add_data, bulk_delete_records, delete_data, update_table, bulk_update_records.
  unfold_service. split_and!.
  - by destruct (gw_create gw table_name [rec] st) as [[ids|] st1].
  - by destruct (gw_destroy gw table_name [record_id] st) as [[[]|] st1].
  - by destruct (gw_update gw table_name [updates ∪ {[ "id" := record_id ]}] st)
      as [[[]|] st1].
Qed.

(** ** Running several merges *)

(** A list of configurations followed by more behaves as the list alone if
    that answers [False], and otherwise goes on with the rest from the
    Gateway state reached. *)
Lemma bulk_merge_tables_app {σ} (gw : Gateway σ)
    (tables more : list merge_config) (st : σ) :
  ∃ b st1 tr1,
    bulk_merge_tables gw tables st = (Ok b, st1, tr1) ∧
    bulk_merge_tables gw (tables ++ more) st
    = if b
      then let '(r, st2, tr2) := bulk_merge_tables gw more st1 in (r, st2, tr1 ++ tr2)
      else (Ok false, st1, tr1).
Proof.
  revert st. induction tables as [|config rest IH]; intros st.
  - exists true, st, []. split; [reflexivity|]. simpl.
    by destruct (bulk_merge_tables gw more st) as [[r st2] tr2].
  - simpl. rewrite !run_bind.
    destruct ((if cfg_strict config
               then merge_tables_strict gw (cfg_sources config) (cfg_target config)
                      (cfg_create_new config)
               else merge_tables gw (cfg_sources config) (cfg_target config)
                      (cfg_create_new config)) st)
      as [[[success|] sta] tra] eqn:Hone.
    + destruct success.
      * destruct (IH sta) as (b & st1 & tr1 & -> & ->).
        exists b, st1, (tra ++ tr1). split; [reflexivity|].
        destruct b; [|reflexivity].
        destruct (bulk_merge_tables gw more st1) as [[r st2] tr2].
        by rewrite app_assoc.
      * exists false, sta, (tra ++ []). split; reflexivity.
    + exfalso.
      destruct (cfg_strict config).
      * destruct (merge_tables_strict_never_raises gw (cfg_sources config)
                    (cfg_target config) (cfg_create_new config) st) as (? & ? & ? & Hok).
        congruence.
      * destruct (merge_tables_never_raises gw (cfg_sources config)
                    (cfg_target config) (cfg_create_new config) st) as (? & ? & ? & Hok).
        congruence.
Qed.

(** X21: [bulk_merge_tables] runs the merge each configuration selects,
    [merge_tables_strict] if [strict] is set and [merge_tables] otherwise,
    in list order, each on the Gateway state the one before it left; it
    stops at the first merge that answers [False] and then answers [False],
    nothing being requested for the later configurations; it answers [True]
    when every merge did.  Its log is the logs of the merges it ran, in
    order. *)
Theorem bulk_merge_tables_in_order {σ} (gw : Gateway σ)
    (tables : list merge_config) (st : σ) :
  ∃ b st' tr,
    bulk_merge_tables gw tables st = (Ok b, st', tr) ∧
    merges_in_order gw tables st b st' tr.
Proof.
  revert st. induction tables as [|config rest IH]; intros st.
  - exists true, st, []. split; [reflexivity|]. constructor.
  - simpl. rewrite run_bind. destruct (cfg_strict config) eqn:Hstrict.
    + destruct (merge_tables_strict_never_raises gw (cfg_sources config)
                  (cfg_target config) (cfg_create_new config) st)
        as (success & st1 & tr1 & Hone).
      rewrite Hone. destruct success.
      * destruct (IH st1) as (b & st2 & tr2 & -> & Hrest).
        exists b, st2, (tr1 ++ tr2). split; [reflexivity|].
        by eapply merges_strict_ok.
      * exists false, st1, (tr1 ++ []). split; [reflexivity|].
        rewrite app_nil_r. by eapply merges_strict_failed.
    + destruct (merge_tables_never_raises gw (cfg_sources config)
                  (cfg_target config) (cfg_create_new config) st)
        as (success & st1 & tr1 & Hone).
      rewrite Hone. destruct success.
      * destruct (IH st1) as (b & st2 & tr2 & -> & Hrest).
        exists b, st2, (tr1 ++ tr2). split; [reflexivity|].
        by eapply merges_union_ok.
      * exists false, st1, (tr1 ++ []). split; [reflexivity|].
        rewrite app_nil_r. by eapply merges_union_failed.
Qed.

Lemma bulk_merge_tables_in_order_witness :
  bulk_merge_tables mem_gateway
    [ {| cfg_sources := ["S1"; "Tasks"]; cfg_target := None;
         cfg_create_new := false; cfg_strict := true |};
      {| cfg_sources := ["S1"; "S2"]; cfg_target := None;
         cfg_create_new := false; cfg_strict := false |} ]
    demo_store
  = (Ok false, demo_store,
     [EFetchTable "S1" (Ok s1_snapshot); EFetchTable "Tasks" (Ok tasks_snapshot)]).
Proof.
  destruct (bulk_merge_tables_in_order mem_gateway
              [ {| cfg_sources := ["S1"; "Tasks"]; cfg_target := None;
                   cfg_create_new := false; cfg_strict := true |};
                {| cfg_sources := ["S1"; "S2"]; cfg_target := None;
                   cfg_create_new := false; cfg_strict := false |} ]
              demo_store) as (b & st' & tr & Hrun & _).
  rewrite Hrun. vm_compute in Hrun. by injection Hrun as <- <- <-.
Defined.

(** ** Frames *)

Lemma dtype_column_type_range (dt : string) : dtype_column_type dt ∈ column_types.
Proof.
  unfold dtype_column_type, column_types.
  destruct (_ !! dt) as [ty|] eqn:Hty; simpl.
  - repeat (apply lookup_insert_Some in Hty as [[_ <-]|[_ Hty]];
            [repeat constructor|]).
    apply lookup_singleton_Some in Hty as [_ <-]. repeat constructor.
  - repeat constructor.
Qed.

Lemma dataframe_columns_snoc (dtypes : list (string * string)) (col dt : string) :
  dataframe_columns (dtypes ++ [(col, dt)])
  = <[col := dtype_column_type dt]> (dataframe_columns dtypes).
Proof. unfold dataframe_columns. by rewrite foldl_app. Qed.

(** X22: the schema declared for a frame has exactly the columns of the
    frame; a column listed twice gets the type of its last dtype; every
    declared type is one of Numeric, Bool, Date and Text. *)
Theorem dataframe_columns_schema (dtypes : list (string * string)) :
  dom (dataframe_columns dtypes) = list_to_set (dtypes.*1) ∧
  (∀ col dt,
     dataframe_columns (dtypes ++ [(col, dt)]) !! col = Some (dtype_column_type dt)) ∧
  ∀ col ty, dataframe_columns dtypes !! col = Some ty → ty ∈ column_types.
Proof.
  split_and!.
  - induction dtypes as [|[col dt] dtypes IH] using rev_ind; [done|].
    rewrite dataframe_columns_snoc, dom_insert_L, IH, fmap_app, list_to_set_app_L.
    simpl. by rewrite (right_id_L ∅ (∪)), (comm_L (∪)).
  - intros col dt. by rewrite dataframe_columns_snoc, lookup_insert_eq.
  - induction dtypes as [|[col' dt] dtypes IH] using rev_ind; intros col ty.
    + intros Hty. by destruct (lookup_empty_Some (M:=gmap string) col ty).
    + rewrite dataframe_columns_snoc.
      intros [[_ <-]|[_ Hty]]%lookup_insert_Some; [|by eapply IH].
      apply dtype_column_type_range.
Qed.

(** X23: [create_table_from_dataframe] on a frame that is not empty first
    runs [create_table] for the schema of the frame.  Only if that answered
    [True] and the records were built does it issue the one [create] of
    those records; it answers the table name exactly when that [create]
    returned, and [None] otherwise.  A table whose rows could not be added
    is left as created: nothing follows the failed [create]. *)
Theorem create_table_from_dataframe_steps {σ} (gw : Gateway σ)
    {F : Type} `{!Frame F} (table_name : string) (df : F) (st : σ) :
  df_empty df = false →
  ∃ answer st' tr_new tr_add,
    create_table_from_dataframe gw table_name df st
    = (Ok answer, st', tr_new ++ tr_add) ∧
    throwaway_log table_name (dataframe_columns (df_dtypes df)) tr_new ∧
    ((tr_add = [] ∧ answer = None) ∨
     ∃ records r,
       df_replace_na_records df = Ok records ∧
       Forall (λ e, event_failed e = false) tr_new ∧
       tr_add = [ECreate table_name records r] ∧
       answer = if is_ok r then Some table_name else None).
Proof.
  intros Hempty. unfold create_table_from_dataframe. rewrite Hempty.
  unfold try_except. rewrite run_bind.
  destruct (create_table_run gw table_name (dataframe_columns (df_dtypes df)) st)
    as (b & st1 & tr1 & -> & Hlog & Hb).
  destruct b; simpl.
  - destruct (df_replace_na_records df) as [records|] eqn:Hrecords.
    + rewrite run_bind, run_ret, run_bind.
      unfold add_data. unfold_service.
      destruct (gw_create gw table_name records st1) as [[ids|] st2']; simpl.
      * exists (Some table_name), st2', tr1, [ECreate table_name records (Ok ids)].
        rewrite ?app_nil_r. split_and!; [done..|]. right.
        exists records, (Ok ids). split_and!; [done| |done..]. by apply Hb.
      * exists None, st2', tr1, [ECreate table_name records Raise].
        rewrite ?app_nil_r. split_and!; [done..|]. right.
        exists records, Raise. split_and!; [done| |done..]. by apply Hb.
    + unfold_service. simpl.
      exists None, st1, tr1, []. rewrite ?app_nil_r. split_and!; [done..|]. by left.
  - exists None, st1, tr1, []. rewrite ?app_nil_r. split_and!; [done..|]. by left.
Qed.

Lemma create_table_from_dataframe_steps_witness :
  ∃ st',
    create_table_from_dataframe mem_gateway "People" people_frame demo_store
    = (Ok (Some "People"), st',
       [ECreate "People" [{[ "name" := VStr ""; "age" := VInt 0 ]}] (Ok [VInt 10]);
        EDestroy "People" [VInt 10] (Ok ());
        ECreate "People"
          [{[ "name" := VStr "ann"; "age" := VInt 30 ]};
           {[ "name" := VStr "bob"; "age" := VNone ]}]
          (Ok [VInt 11; VInt 12])]).
Proof.
  destruct (create_table_from_dataframe_steps mem_gateway "People" people_frame demo_store)
    as (answer & st' & tr1 & tr2 & Hrun & _); [reflexivity|].
  remember (tr1 ++ tr2) as tr eqn:Htr. clear Htr.
  exists st'. rewrite Hrun. vm_compute in Hrun.
  injection Hrun as <- <- <-. vm_compute. reflexivity.
Defined.

(** X24: [fetch_table_to_dataframe] never raises and issues the one fetch,
    never a write.  The frame is built from the snapshot without the two
    system columns, every other column being passed on with its cells as
    fetched; if the fetch or the construction of the frame raises, the
    answer is the empty frame [pd.DataFrame()]. *)
Theorem fetch_table_to_dataframe_answer {σ} (gw : Gateway σ)
    {F : Type} `{!FrameBuilder F} (table_name : string) (st : σ) :
  (let '(r, st') := gw_fetch_table gw table_name st in
   fetch_table_to_dataframe gw table_name st
   = (Ok match r with
         | Ok table_data =>
             match df_from_columns (user_columns table_data) with
             | Ok df => df
             | Raise => df_blank
             end
         | Raise => df_blank
         end,
      st', [EFetchTable table_name r])) ∧
  ∀ table_data : snapshot,
    dom (user_columns table_data) = non_system_columns table_data ∧
    ∀ col cells, user_columns table_data !! col = Some cells →
                 table_data !! col = Some cells.
Proof.
  split.
  - unfold fetch_table_to_dataframe. unfold_service.
    destruct (gw_fetch_table gw table_name st) as [[table_data|] st1]; [|done].
    by destruct (df_from_columns (user_columns table_data)).
  - intros table_data. unfold user_columns, non_system_columns. split.
    + apply set_eq. intros col.
      rewrite elem_of_difference, !elem_of_dom. split.
      * intros [cells [Hcol Hsys]%map_lookup_filter_Some]. by rewrite Hcol.
      * intros [[cells Hcol] Hsys]. exists cells. by apply map_lookup_filter_Some.
    + by intros col cells [Hcol _]%map_lookup_filter_Some.
Qed.

(** ** Strict merge: the schema of a new target *)



